(** * The OSE link protocol: shard master connector and peer RX dispatcher

    A shallow embedding of two modules of the OSE framework:

    - the "slave shard client socket" (the class whose constructor is [C],
      with the handlers [open], [close], [error], [synced] and the private
      functions [close] and [connect]);
    - [lib/peer/rx.js], the handlers of incoming peer to peer traffic
      (with the private functions [getLink] and [error]).

    JavaScript objects live in a heap of records addressed by their index,
    so that [shard.master] and [socket.shard] alias the way they do in the
    source.  Calls to collaborators whose code is outside these modules
    ([entry.linkMaster], [Ose.link.error], [ws.tx], the logger, listeners of
    an event) are recorded, in order, in a trace. *)

From Stdlib Require Import ZArith String HexadecimalString.
From Stdlib Require HexadecimalZ.
From stdpp Require Import gmap strings list.

Open Scope string_scope.
Open Scope Z_scope.
Open Scope list_scope.

(** ** JavaScript values *)

#[warnings="-register-all"]
Inductive JsVal :=
| VUndefined
| VNull
| VBool (b : bool)
| VNum (n : Z)
| VStr (s : string)
| VObj (props : list (string * JsVal)).

(** [typeof v] *)
Definition typeof (v : JsVal) : string :=
  match v with
  | VUndefined => "undefined"
  | VNull => "object"
  | VBool _ => "boolean"
  | VNum _ => "number"
  | VStr _ => "string"
  | VObj _ => "object"
  end.

(** The first binding of [name] among the properties of an object. *)
Fixpoint assoc {A} (name : string) (l : list (string * A)) : option A :=
  match l with
  | [] => None
  | (n, v) :: l' => if String.eqb n name then Some v else assoc name l'
  end.

(** An error object built by [Ose.error(subject, code, data)].  The subject
    only serves the log output and is left out. *)
Record OseErr := Ose_error { err_code : string; err_data : JsVal }.

(** What a [throw] carries: an error of the runtime (reading a property of
    [undefined]) or an error object of the framework. *)
Inductive Exn :=
| TypeError
| Raised (e : OseErr).

Inductive Outcome (A : Type) :=
| Normal (a : A)
| Thrown (e : Exn).
Arguments Normal {A} a.
Arguments Thrown {A} e.

(** ** Computations

    A computation over a state [S] ends normally or by a [throw]; the
    changes made to the state before a [throw] stay. *)

Definition Exec (S A : Type) : Type := S → Outcome A * S.

#[global] Instance Exec_ret {S} : MRet (Exec S) := λ A a w, (Normal a, w).
#[global] Instance Exec_bind {S} : MBind (Exec S) := λ A B f m w,
  match m w with
  | (Normal a, w') => f a w'
  | (Thrown e, w') => (Thrown e, w')
  end.

Definition throw {S A} (e : Exn) : Exec S A := λ w, (Thrown e, w).
Definition modify {S} (f : S → S) : Exec S unit := λ w, (Normal tt, f w).

(** Reading through a reference: a property of [undefined] cannot be read. *)
Definition deref {S A} (r : option A) : Exec S A :=
  match r with
  | Some a => mret a
  | None => throw TypeError
  end.

(** Running the computations of a list in order. *)
Fixpoint for_each {S A} (f : A → Exec S unit) (l : list A) : Exec S unit :=
  match l with
  | [] => mret tt
  | a :: l' => f a ;; for_each f l'
  end.

(** [n.toString(16)] for an integer [n]: lowercase digits, a leading minus
    sign for negative numbers. *)
Definition toString16 (n : Z) : string :=
  NilZero.string_of_int (Z.to_hex_int n).

(** The number that [if (v)] finds in an optional integer field: none when
    the field is absent or holds zero. *)
Definition truthy_num (v : option Z) : option Z :=
  match v with
  | None => None
  | Some n => if n =? 0 then None else Some n
  end.

(** * The slave shard client socket *)

Module ShardSlave.

(** An entry of a shard's cache; [en_slaves] is [entry.slaves], the
    dependents of the entry, [None] when the property is not set. *)
Record Entry := { en_slaves : option (list nat) }.

(** A shard.  [sh_master] is the socket to the master, [sh_cache] lists the
    cache in the order [for (key in cache)] visits it, [sh_check2Link] is
    what [shard.check2Link()] answers and [sh_identify] what
    [shard.identify()] returns. *)
Record Shard := {
  sh_master : option nat;
  sh_synced : bool;
  sh_cache : list (string * Entry);
  sh_check2Link : bool;
  sh_identify : JsVal }.

(** The socket built by [C].  [so_done] holds the listeners registered with
    [once('done', ..)], [so_lid] the link id given by [ws.addLink]. *)
Record Socket := {
  so_shard : option nat;
  so_peer : option nat;
  so_done : list nat;
  so_lid : option Z;
  so_handlers : list string }.

(** The frame sent by [connect]. *)
Record Frame := {
  fr_type : string;
  fr_newLid : option Z;
  fr_handlers : list string;
  fr_shard : JsVal }.

(** The WebSocket wrapper of a connected peer: its link table, keyed by the
    hexadecimal link id, and the last link id given out. *)
Record Ws := {
  ws_links : gmap string nat;
  ws_lastLid : Z }.

(** A peer.  [pe_connected] lists the sockets [k] for which
    [connect.bind(null, k)] waits as a [once('connected', ..)] listener. *)
Record Peer := {
  pe_isConnected : bool;
  pe_ws : option Ws;
  pe_connected : list nat }.

(** Calls to collaborators, in the order they are made:
    [shard.cache[key].linkMaster()], [shard.setSynced(b)],
    [socket.emit('done', err)] and the call of a listener [cb] by it,
    [Ose.link.error(socket, err)], [Ose.link.prepare(socket)],
    [peer.ws.addLink(socket)] and [peer.ws.tx(frame)]. *)
Inductive Event :=
| EvLinkMaster (s : nat) (key : string)
| EvSetSynced (s : nat) (b : bool)
| EvEmitDone (k : nat) (err : option OseErr)
| EvListener (cb : nat) (err : option OseErr)
| EvLinkError (k : nat) (err : OseErr)
| EvPrepare (k : nat)
| EvAddLink (p k : nat) (lid : Z)
| EvTx (p : nat) (f : Frame).

(** The heap, the pending timers ([setTimeout(function() { connect(k) }, d)]
    is the pair [(d, k)]) and the trace. *)
Record World := {
  shards : list Shard;
  sockets : list Socket;
  peers : list Peer;
  timers : list (Z * nat);
  trace : list Event }.

Definition set_shards (f : list Shard → list Shard) (w : World) : World :=
  {| shards := f (shards w); sockets := sockets w; peers := peers w;
     timers := timers w; trace := trace w |}.
Definition set_sockets (f : list Socket → list Socket) (w : World) : World :=
  {| shards := shards w; sockets := f (sockets w); peers := peers w;
     timers := timers w; trace := trace w |}.
Definition set_peers (f : list Peer → list Peer) (w : World) : World :=
  {| shards := shards w; sockets := sockets w; peers := f (peers w);
     timers := timers w; trace := trace w |}.
Definition set_timers (f : list (Z * nat) → list (Z * nat)) (w : World) : World :=
  {| shards := shards w; sockets := sockets w; peers := peers w;
     timers := f (timers w); trace := trace w |}.
Definition set_trace (f : list Event → list Event) (w : World) : World :=
  {| shards := shards w; sockets := sockets w; peers := peers w;
     timers := timers w; trace := f (trace w) |}.

Abbreviation M := (Exec World).

Definition log (e : Event) : M unit := modify (set_trace (λ t, t ++ [e])).

(** An index outside the heap stands for [undefined]. *)
Definition get_shard (s : nat) : M Shard := λ w, deref (shards w !! s) w.
Definition get_socket (k : nat) : M Socket := λ w, deref (sockets w !! k) w.
Definition get_peer (p : nat) : M Peer := λ w, deref (peers w !! p) w.

Definition upd_shard (s : nat) (f : Shard → Shard) : M unit :=
  modify (set_shards (alter f s)).
Definition upd_socket (k : nat) (f : Socket → Socket) : M unit :=
  modify (set_sockets (alter f k)).
Definition upd_peer (p : nat) (f : Peer → Peer) : M unit :=
  modify (set_peers (alter f p)).

Definition with_master (m : option nat) (sh : Shard) : Shard :=
  {| sh_master := m; sh_synced := sh_synced sh; sh_cache := sh_cache sh;
     sh_check2Link := sh_check2Link sh; sh_identify := sh_identify sh |}.
Definition with_synced (b : bool) (sh : Shard) : Shard :=
  {| sh_master := sh_master sh; sh_synced := b; sh_cache := sh_cache sh;
     sh_check2Link := sh_check2Link sh; sh_identify := sh_identify sh |}.
Definition with_shard (s : option nat) (so : Socket) : Socket :=
  {| so_shard := s; so_peer := so_peer so; so_done := so_done so;
     so_lid := so_lid so; so_handlers := so_handlers so |}.
Definition with_peer (p : option nat) (so : Socket) : Socket :=
  {| so_shard := so_shard so; so_peer := p; so_done := so_done so;
     so_lid := so_lid so; so_handlers := so_handlers so |}.
Definition with_done (l : list nat) (so : Socket) : Socket :=
  {| so_shard := so_shard so; so_peer := so_peer so; so_done := l;
     so_lid := so_lid so; so_handlers := so_handlers so |}.
Definition with_lid (l : option Z) (so : Socket) : Socket :=
  {| so_shard := so_shard so; so_peer := so_peer so; so_done := so_done so;
     so_lid := l; so_handlers := so_handlers so |}.
Definition with_ws (ws : option Ws) (p : Peer) : Peer :=
  {| pe_isConnected := pe_isConnected p; pe_ws := ws;
     pe_connected := pe_connected p |}.
Definition with_connected (l : list nat) (p : Peer) : Peer :=
  {| pe_isConnected := pe_isConnected p; pe_ws := pe_ws p;
     pe_connected := l |}.

(** ** Collaborators *)

(** [shard.setSynced(b)] *)
Definition setSynced (s : nat) (b : bool) : M unit :=
  get_shard s ;;
  upd_shard s (with_synced b) ;;
  log (EvSetSynced s b).

(** [Ose.link.error(socket, err)]: the call is recorded; what the callee
    goes on to do lies outside this module. *)
Definition link_error (k : nat) (err : OseErr) : M unit :=
  log (EvLinkError k err).

(** [this.once('done', cb)] *)
Definition once_done (k cb : nat) : M unit :=
  so ← get_socket k;
  upd_socket k (with_done (so_done so ++ [cb])).

(** [this.emit('done', err, ..)]: every listener is called once, in the
    order of registration, and a [once] listener is removed by its call. *)
Definition emit_done (k : nat) (err : option OseErr) : M unit :=
  so ← get_socket k;
  log (EvEmitDone k err) ;;
  upd_socket k (with_done []) ;;
  for_each (λ cb, log (EvListener cb err)) (so_done so).

(** [that.peer.once('connected', connect.bind(null, that))] *)
Definition once_connected (p k : nat) : M unit :=
  pe ← get_peer p;
  upd_peer p (with_connected (pe_connected pe ++ [k])).

(** [setTimeout(function() { connect(that); }, delay)] *)
Definition setTimeout (delay : Z) (k : nat) : M unit :=
  modify (set_timers (λ t, t ++ [(delay, k)])).

(** Modelled from the spec: [ws.addLink(socket)] of the WebSocket wrapper,
    which is not among the sources.  It allocates a new link id, here the
    successor of the last one given out, and registers the socket in the
    link table of the connection. *)
Definition addLink (p k : nat) : M unit :=
  pe ← get_peer p;
  ws ← deref (pe_ws pe);
  let lid := ws_lastLid ws + 1 in
  upd_peer p (with_ws (Some {| ws_links := <[toString16 lid := k]> (ws_links ws);
                               ws_lastLid := lid |})) ;;
  upd_socket k (with_lid (Some lid)) ;;
  log (EvAddLink p k lid).

(** ** The module *)

(** [function connect(that)] *)
Definition connect (that : nat) : M unit :=
  so ← get_socket that;
  p ← deref (so_peer so);
  pe ← get_peer p;
  if pe_isConnected pe then
    log (EvPrepare that) ;;
    addLink p that ;;
    so' ← get_socket that;
    s ← deref (so_shard so');
    sh ← get_shard s;
    log (EvTx p {| fr_type := "shard"; fr_newLid := so_lid so';
                   fr_handlers := so_handlers so';
                   fr_shard := sh_identify sh |})
  else
    emit_done that (Some (Ose_error "DISCONNECTED" VUndefined)) ;;
    once_connected p that.

(** The object that [new] hands to the constructor as [this], after
    [M.super.call(this)]: an event emitter without listeners. *)
Definition blank_socket : Socket :=
  {| so_shard := None; so_peer := None; so_done := []; so_lid := None;
     so_handlers := [] |}.

(** [new]: the object is put at the end of the heap.  It stays there, out
    of reach, when the constructor throws. *)
Definition new_socket : M nat :=
  λ w, (Normal (length (sockets w)),
        set_sockets (λ l, l ++ [blank_socket]) w).

(** [function C(shard, peer, cb)]; the result is the new socket, [this]. *)
Definition C (shard peer : nat) (cb : option nat) : M nat :=
  this ← new_socket;
  sh ← get_shard shard;
  match sh_master sh with
  | Some _ => throw (Raised (Ose_error "duplicitMaster" VUndefined))
  | None =>
    upd_shard shard (with_master (Some this)) ;;
    upd_socket this (with_shard (Some shard)) ;;
    match cb with
    | Some f => once_done this f
    | None => mret tt
    end ;;
    upd_socket this (with_peer (Some peer)) ;;
    connect this ;;
    mret this
  end.

(** [exports.synced = function(data)] *)
Definition exports_synced (this : nat) (data : JsVal) : M unit :=
  match data with
  | VBool b =>
    so ← get_socket this;
    s ← deref (so_shard so);
    setSynced s b
  | _ => link_error this (Ose_error "invalidSynced" data)
  end.

(** [data[name]]: [None] when reading it throws, which is the case for
    [undefined] and [null]; a primitive value has no such property. *)
Definition prop (data : JsVal) (name : string) : option JsVal :=
  match data with
  | VUndefined | VNull => None
  | VObj props => Some (default VUndefined (assoc name props))
  | _ => Some VUndefined
  end.

(** [exports.open = function(data)] *)
Definition exports_open (this : nat) (data : JsVal) : M unit :=
  so ← get_socket this;
  s ← deref (so_shard so);
  sh ← get_shard s;
  for_each (λ '(key, entry),
            match en_slaves entry with
            | None => mret tt
            | Some _ => log (EvLinkMaster s key)
            end) (sh_cache sh) ;;
  v ← deref (prop data "synced");
  exports_synced this v ;;
  emit_done this None.

(** [function close(that, err)], the private one; [err] is [None] when the
    caller passes no second argument. *)
Definition close (that : nat) (err : option OseErr) : M unit :=
  so ← get_socket that;
  match so_shard so with
  | None =>
    throw (Raised (Ose_error "UNEXPECTED"
      (VStr "'Shard to master' client socket was already closed!")))
  | Some s =>
    setSynced s false ;;
    sh ← get_shard s;
    if sh_check2Link sh then
      e ← deref err;
      if String.eqb (err_code e) "DISCONNECTED"
      then setTimeout 1000 that
      else mret tt
    else
      upd_shard s (with_master None) ;;
      upd_socket that (with_shard None)
  end.

(** [exports.close = function()] *)
Definition exports_close (this : nat) : M unit :=
  close this None ;;
  emit_done this (Some (Ose_error "CLOSED" VUndefined)).

(** [exports.error = function(err)] *)
Definition exports_error (this : nat) (err : option OseErr) : M unit :=
  close this err ;;
  emit_done this err.

(** ** The events that call back into the module *)

(** Removing a listener: its first occurrence goes. *)
Fixpoint remove_first (k : nat) (l : list nat) : list nat :=
  match l with
  | [] => []
  | x :: l' => if Nat.eqb x k then l' else x :: remove_first k l'
  end.

(** [peer.emit('connected')] for the listeners that [connect] registers:
    each one registered at the time of the call is removed and then run. *)
Definition emit_connected (p : nat) : M unit :=
  pe ← get_peer p;
  for_each (λ k,
            pe' ← get_peer p;
            upd_peer p (with_connected (remove_first k (pe_connected pe'))) ;;
            connect k) (pe_connected pe).

(** The timer set by [close] expires: its function runs [connect]. *)
Definition fire_timer (i : nat) : M unit :=
  '(_, k) ← (λ w, deref (timers w !! i) w);
  modify (set_timers (delete i)) ;;
  connect k.

(** ** Notions used to state the properties *)

(** The keys of the cache entries that have dependents, in cache order. *)
Definition dependents (cache : list (string * Entry)) : list string :=
  (filter (λ e, is_Some (en_slaves e.2)) cache).*1.

(** The calls made by [emit('done', err)] on a socket with the [once]
    listeners [cbs]. *)
Definition done_calls (k : nat) (err : option OseErr) (cbs : list nat)
    : list Event :=
  EvEmitDone k err :: map (λ cb, EvListener cb err) cbs.

(** A socket that refers to a shard is the master that the shard refers
    to. *)
Definition master_unique (w : World) : Prop :=
  ∀ k s, so_shard <$> sockets w !! k = Some (Some s) →
         sh_master <$> shards w !! s = Some (Some k).

(** No two sockets refer to the same shard. *)
Definition at_most_one_master (w : World) : Prop :=
  ∀ s k1 k2, so_shard <$> sockets w !! k1 = Some (Some s) →
             so_shard <$> sockets w !! k2 = Some (Some s) →
             k1 = k2.

(** Two heaps in which every socket refers to the same shard and every
    shard to the same master. *)
Definition same_links (w w' : World) : Prop :=
  (∀ k, so_shard <$> sockets w' !! k = so_shard <$> sockets w !! k) ∧
  (∀ s, sh_master <$> shards w' !! s = sh_master <$> shards w !! s).

(** The ways into the module: the constructor, the four handlers, the
    ['connected'] event of a peer and the expiry of a timer. *)
Inductive Call :=
| CallC (shard peer : nat) (cb : option nat)
| CallOpen (this : nat) (data : JsVal)
| CallClose (this : nat)
| CallError (this : nat) (err : option OseErr)
| CallSynced (this : nat) (data : JsVal)
| CallConnected (p : nat)
| CallTimer (i : nat).

(** The heap that a call leaves, whether it returns or throws. *)
Definition after (c : Call) (w : World) : World :=
  match c with
  | CallC shard peer cb => (C shard peer cb w).2
  | CallOpen this data => (exports_open this data w).2
  | CallClose this => (exports_close this w).2
  | CallError this err => (exports_error this err w).2
  | CallSynced this data => (exports_synced this data w).2
  | CallConnected p => (emit_connected p w).2
  | CallTimer i => (fire_timer i w).2
  end.

(** The heaps that can arise.  At the start there is no socket and no
    shard has a master.  The module is entered by the calls above, in any
    order and with any arguments; between the calls the rest of the program
    may change the heap in any way (peers connect and disconnect, caches
    and the answers of [check2Link] change, listeners are added) that
    leaves [shard.master] and [socket.shard] alone. *)
Inductive reachable : World → Prop :=
| reach_start w :
    sockets w = [] →
    Forall (λ sh, sh_master sh = None) (shards w) →
    reachable w
| reach_call w c :
    reachable w → reachable (after c w)
| reach_other w w' :
    reachable w → same_links w w' → reachable w'.

(** What the synced handler does with the value [v]. *)
Definition synced_call (k s : nat) (v : JsVal) : Event :=
  match v with
  | VBool b => EvSetSynced s b
  | _ => EvLinkError k (Ose_error "invalidSynced" v)
  end.

(** The state in which a teardown leaves a socket [k] and its shard [s]
    when it dismantles them: it returns, both references are gone and the
    timers are those of before. *)
Definition dismantled (w : World) (k s : nat) (r : Outcome unit * World)
    : Prop :=
  r.1 = Normal tt ∧
  sh_master <$> shards r.2 !! s = Some None ∧
  so_shard <$> sockets r.2 !! k = Some None ∧
  timers r.2 = timers w.

(** The heap in which [C] calls [connect], for a shard without a master:
    the new socket, at the end of the heap, and the shard refer to each
    other and the callback is registered. *)
Definition constructed (shard peer : nat) (cb : option nat) (w : World)
    : World :=
  {| shards := alter (with_master (Some (length (sockets w)))) shard
                 (shards w);
     sockets := sockets w ++
                [{| so_shard := Some shard; so_peer := Some peer;
                    so_done := from_option (λ f, [f]) [] cb;
                    so_lid := None; so_handlers := [] |}];
     peers := peers w; timers := timers w; trace := trace w |}.

(** Computations that leave the two references alone. *)
Definition keeps_links {A} (m : M A) : Prop := ∀ w, same_links w (m w).2.

(** ** A concrete heap

    One shard, linked to the socket 0 as its master, with three cache
    entries of which the first and the last have dependents; the peer is
    not connected; [check2Link] answers as given. *)
Definition linked_shard (needed : bool) : Shard :=
  {| sh_master := Some 0%nat; sh_synced := false;
     sh_cache := [ ("a", {| en_slaves := Some [1%nat] |});
                   ("b", {| en_slaves := None |});
                   ("c", {| en_slaves := Some [] |}) ];
     sh_check2Link := needed;
     sh_identify := VStr "x" |}.

Definition linked_socket : Socket :=
  {| so_shard := Some 0%nat; so_peer := Some 0%nat;
     so_done := [5%nat]; so_lid := Some 1; so_handlers := [] |}.

Definition absent_peer : Peer :=
  {| pe_isConnected := false; pe_ws := None; pe_connected := [] |}.

Definition linked_world (needed : bool) : World :=
  {| shards := [linked_shard needed];
     sockets := [linked_socket];
     peers := [absent_peer];
     timers := [];
     trace := [] |}.

(** The same shard before any socket is built for it. *)
Definition fresh_world : World :=
  {| shards := [with_master None (linked_shard true)];
     sockets := [];
     peers := [absent_peer];
     timers := [];
     trace := [] |}.

End ShardSlave.

(** * Handlers of incoming peer to peer traffic, [lib/peer/rx.js] *)

Module PeerRx.

(** [socket.link]: not set, the string ['relay'], or the socket at the
    other end. *)
Inductive LinkField :=
| LinkUndefined
| LinkRelay
| LinkSocket (other : nat).

(** What the handlers read of a value registered in a link table.
    [so_ws] is [socket.ws], set on a socket that passes frames on to
    another connection; [so_methods] lists the names [n] for which
    [typeof socket[n]] is ['function'], inherited ones included. *)
Record Socket := {
  so_link : LinkField;
  so_ws : option nat;
  so_methods : list string }.

(** A decoded request, with the fields that the handlers below read.  The
    link ids are integers; a field that the frame does not carry is
    [None]. *)
Record Req := {
  type : string;
  lid : option Z;
  newLid : option Z;
  handlers : list string;
  data : JsVal;
  name : option string }.

(** The WebSocket wrapper: [ws.links], keyed by the hexadecimal link id. *)
Record Ws := { links : gmap string Socket }.

(** The third argument of [Ose.error]. *)
Inductive ErrData :=
| DReq (r : Req)
| DName (n : option string)
| DStr (s : string).

(** The first argument of the private [error]: the wrapper or a socket. *)
Inductive Subject :=
| SubjWs
| SubjSocket (s : Socket).

(** Calls to collaborators, in the order they are made:
    [M.log.error(Ose.error(.., code, d))],
    [ws.txError(lid, Ose.error(.., code, d))],
    [Ose.link.error(socket, Ose.error(.., code, d))],
    [new WsRelay(ws, req, socket)],
    [new WsSlave(ws, socket, req.handlers, req.data)],
    [new WsMaster(ws, req.newLid, req.handlers)], [socket.ws.tx(req)] and
    the call [socket[method](d, master)]. *)
Inductive Event :=
| EvLogError (code : string) (d : ErrData)
| EvTxError (lid : Z) (code : string) (d : ErrData)
| EvLinkError (s : Socket) (code : string) (d : ErrData)
| EvWsRelay (r : Req) (s : Socket)
| EvWsSlave (s : Socket) (hs : list string) (d : JsVal)
| EvWsMaster (lid : Z) (hs : list string)
| EvForward (ws : nat) (r : Req)
| EvInvoke (s : Socket) (method : string) (d : JsVal) (master : option Z).

Abbreviation M := (Exec (list Event)).

Definition log (e : Event) : M unit := modify (λ t, t ++ [e]).

(** [typeof socket[key] === 'function'] *)
Definition is_function (s : Socket) (key : string) : bool :=
  bool_decide (key ∈ so_methods s).

(** The property key that [socket[req.name]] reads: a name that is not
    there is the key ['undefined']. *)
Definition prop_key (n : option string) : string := default "undefined" n.

(** [names.indexOf(n) >= 0] in an array of strings. *)
Definition listed (names : list string) (n : option string) : bool :=
  match n with
  | Some s => bool_decide (s ∈ names)
  | None => false
  end.

(** [function getLink(ws, req)] *)
Definition getLink (ws : Ws) (req : Req) : M (option Socket) :=
  match truthy_num (lid req) with
  | None =>
    log (EvLogError "MISSING_LINK" (DReq req)) ;;
    mret None
  | Some n =>
    match links ws !! toString16 n with
    | Some result => mret (Some result)
    | None =>
      (if String.eqb (type req) "error"
       then log (EvLogError "MISSING_LINK" (DReq req))
       else log (EvTxError n "MISSING_LINK" (DReq req))) ;;
      mret None
    end
  end.

(** [data.lid] *)
Definition data_lid (d : ErrData) : option Z :=
  match d with
  | DReq r => lid r
  | DName _ | DStr _ => None
  end.

(** [function error(ws, err, data)] *)
Definition error (ws : Subject) (err : string) (d : ErrData) : M unit :=
  match truthy_num (data_lid d) with
  | Some n =>
    match ws with
    | SubjWs => log (EvTxError n err d)
    | SubjSocket s =>
      if is_function s "txError"
      then log (EvInvoke s "txError" (VNum n) None)
      else throw TypeError
    end
  | None => mret tt
  end ;;
  log (EvLogError err d).

(** [exports.open = function(ws, req)] *)
Definition exports_open (ws : Ws) (req : Req) : M unit :=
  socket ← getLink ws req;
  match socket with
  | None => mret tt
  | Some socket =>
    match so_link socket with
    | LinkRelay => log (EvWsRelay req socket)
    | _ =>
      if negb (is_function socket "open")
      then error (SubjSocket socket) "MISSING_HANDLER" (DStr "open")
      else log (EvWsSlave socket (handlers req) (data req))
    end
  end.

(** [exports.command = function(ws, req)]; [forbiddenNames] is
    [Ose.link.forbiddenNames]. *)
Definition exports_command (forbiddenNames : list string)
    (ws : Ws) (req : Req) : M unit :=
  socket ← getLink ws req;
  match socket with
  | None => mret tt
  | Some socket =>
    match so_ws socket with
    | Some target => log (EvForward target req)
    | None =>
      if listed forbiddenNames (name req)
      then log (EvLinkError socket "FORBIDDEN_HANDLER" (DName (name req)))
      else if negb (is_function socket (prop_key (name req)))
      then log (EvLinkError socket "MISSING_HANDLER" (DName (name req)))
      else
        master ← match truthy_num (newLid req) with
                 | Some l => log (EvWsMaster l (handlers req)) ;; mret (Some l)
                 | None => mret None
                 end;
        log (EvInvoke socket (prop_key (name req)) (data req) master)
    end
  end.

(** ** Concrete connections and frames *)

(** A socket with two functions of its own and the inherited
    [constructor]. *)
Definition plain_socket : Socket :=
  {| so_link := LinkUndefined; so_ws := None;
     so_methods := ["open"; "update"; "constructor"] |}.

(** A socket without an [open] function. *)
Definition mute_socket : Socket :=
  {| so_link := LinkUndefined; so_ws := None;
     so_methods := ["constructor"] |}.

(** Link ids 7, 26 and, which no frame can reach, 0. *)
Definition demo_ws : Ws :=
  {| links := <["7" := plain_socket]> (<["1a" := mute_socket]>
                (<["0" := plain_socket]> ∅)) |}.

Definition frame (ty : string) (l : option Z) (n : option string) : Req :=
  {| type := ty; lid := l; newLid := None; handlers := [];
     data := VUndefined; name := n |}.

End PeerRx.

(** * Further heaps and frames *)

Module ShardSlaveData.
Import ShardSlave.

(** A peer that is connected, with an empty link table, and a heap whose
    socket can reach it. *)
Definition present_peer : Peer :=
  {| pe_isConnected := true;
     pe_ws := Some {| ws_links := ∅; ws_lastLid := 25 |};
     pe_connected := [] |}.

Definition online_world : World :=
  {| shards := [linked_shard true]; sockets := [linked_socket];
     peers := [present_peer]; timers := []; trace := [] |}.

(** The calls other than the constructor and the two handlers that enter
    the teardown. *)
Definition no_teardown (c : Call) : Prop :=
  match c with
  | CallC _ _ _ | CallClose _ | CallError _ _ => False
  | _ => True
  end.

(** The four handlers of the socket [k]. *)
Definition handler_of (k : nat) (c : Call) : Prop :=
  match c with
  | CallOpen this _ | CallClose this | CallError this _
  | CallSynced this _ => this = k
  | _ => False
  end.

(** Computations that call no listener and leave the ['done'] listeners
    of the socket [k] as they are. *)
Definition quiet (k : nat) {A} (m : M A) : Prop :=
  ∀ w, so_done <$> sockets (m w).2 !! k = so_done <$> sockets w !! k ∧
       ∃ evs, trace (m w).2 = trace w ++ evs ∧
              ∀ cb e, EvListener cb e ∉ evs.

(** From [w] to [w'] listeners were called only if they were registered
    on the socket [k] in [w], and then none is registered in [w']. *)
Definition calls_once (k : nat) (w w' : World) : Prop :=
  ∃ evs, trace w' = trace w ++ evs ∧
    ∀ cb e, EvListener cb e ∈ evs →
      (∃ so, sockets w !! k = Some so ∧ cb ∈ so_done so) ∧
      so_done <$> sockets w' !! k = Some [].

End ShardSlaveData.

(** * The close and the error handler of [lib/peer/rx.js]

    These two handlers write: they take the link out of the table and
    delete the properties by which the two sockets of a link name each
    other.  The values of the link table are therefore addresses into a
    heap of cells. *)

Module PeerRxHeap.
Import PeerRx.

(** A value in the heap, by its [typeof]: a function or an object, with
    the properties that the handlers read, or a primitive value.
    [LinkSocket b] in the properties is a reference to the cell at [b]. *)
Inductive Cell :=
| CFunction (s : Socket)
| CObject (s : Socket)
| CPrimitive (v : JsVal).

(** [if (v)] *)
Definition truthy (v : JsVal) : bool :=
  match v with
  | VUndefined | VNull => false
  | VBool b => b
  | VNum n => negb (n =? 0)
  | VStr s => negb (String.eqb s "")
  | VObj _ => true
  end.

Definition truthy_cell (ce : Cell) : bool :=
  match ce with
  | CFunction _ | CObject _ => true
  | CPrimitive v => truthy v
  end.

(** [socket.link]; a primitive value has no such property. *)
Definition link_of (ce : Cell) : LinkField :=
  match ce with
  | CFunction s | CObject s => so_link s
  | CPrimitive _ => LinkUndefined
  end.

(** A change to the properties of a function or an object. *)
Definition change (f : Socket → Socket) (ce : Cell) : Cell :=
  match ce with
  | CFunction s => CFunction (f s)
  | CObject s => CObject (f s)
  | CPrimitive v => CPrimitive v
  end.

(** Calls to collaborators, in the order they are made: those of
    [PeerRx], [ws.delLid(lid)], the call [socket(undefined, d)] of a
    function in the link table, [Ose.link.close(socket, d)] and
    [Ose.link.error(socket, Ose.error(ws.peer, code, message, d))]. *)
Inductive Event :=
| EvRx (e : PeerRx.Event)
| EvDelLid (lid : option Z)
| EvCallback (a : nat) (d : JsVal)
| EvLinkClose (a : nat) (d : JsVal)
| EvLinkFail (a : nat) (code : string) (message : option string) (d : JsVal).

(** The WebSocket wrapper with the heap: [ws.links] by hexadecimal link
    id, the cells, and the trace. *)
Record Conn := {
  links : gmap string nat;
  cells : list Cell;
  trace : list Event }.

Abbreviation M := (Exec Conn).

Definition log (e : Event) : M unit :=
  modify (λ c, {| links := links c; cells := cells c;
                  trace := trace c ++ [e] |}).

(** An address outside the heap stands for [undefined]. *)
Definition get_cell (a : nat) : M Cell := λ c, deref (cells c !! a) c.

Definition upd_cell (a : nat) (f : Socket → Socket) : M unit :=
  modify (λ c, {| links := links c;
                  cells := alter (change f) a (cells c);
                  trace := trace c |}).

(** [delete o.link] and [delete o.ws] *)
Definition without_link (s : Socket) : Socket :=
  {| so_link := LinkUndefined; so_ws := so_ws s;
     so_methods := so_methods s |}.
Definition without_ws (s : Socket) : Socket :=
  {| so_link := so_link s; so_ws := None; so_methods := so_methods s |}.

(** Modelled from the spec: [ws.delLid(lid)] of the WebSocket wrapper,
    which is not among the sources.  It deregisters the link id from the
    connection. *)
Definition delLid (l : option Z) : M unit :=
  log (EvDelLid l) ;;
  match l with
  | Some n =>
    modify (λ c, {| links := delete (toString16 n) (links c);
                    cells := cells c; trace := trace c |})
  | None => mret tt
  end.

(** [ws.links[key]], when [if (result)] takes it as true. *)
Definition registered (c : Conn) (key : string) : option nat :=
  a ← links c !! key;
  ce ← cells c !! a;
  if truthy_cell ce then Some a else None.

(** [function getLink(ws, req)], with the address of the value found. *)
Definition getLink (req : Req) : M (option nat) :=
  match truthy_num (lid req) with
  | None =>
    log (EvRx (EvLogError "MISSING_LINK" (DReq req))) ;;
    mret None
  | Some n =>
    result ← (λ c, (Normal (registered c (toString16 n)), c));
    match result with
    | Some a => mret (Some a)
    | None =>
      (if String.eqb (type req) "error"
       then log (EvRx (EvLogError "MISSING_LINK" (DReq req)))
       else log (EvRx (EvTxError n "MISSING_LINK" (DReq req)))) ;;
      mret None
    end
  end.

(** One statement [delete socket.link.p], where [f] deletes [p]: the
    property [link] of the socket is read; nothing can be deleted from
    [undefined], and the string ['relay'] has no such property. *)
Definition delete_of_link (a : nat) (f : Socket → Socket) : M unit :=
  cell ← get_cell a;
  match link_of cell with
  | LinkUndefined => throw TypeError
  | LinkRelay => mret tt
  | LinkSocket b => get_cell b ;; upd_cell b f
  end.

(** [if (socket.link) { delete socket.link.link; delete socket.link.ws;
    delete socket.link; }] *)
Definition unlink (a : nat) : M unit :=
  cell ← get_cell a;
  match link_of cell with
  | LinkUndefined => mret tt
  | _ =>
    delete_of_link a without_link ;;
    delete_of_link a without_ws ;;
    upd_cell a without_link
  end.

(** [exports.close = function(ws, req)].  [Logger] is not bound in the
    file; what the statement [Logger.todo('Relay close request', this,
    req)] does is the parameter [todo]. *)
Definition exports_close (todo : Req → M unit) (req : Req) : M unit :=
  socket ← getLink req;
  match socket with
  | None => mret tt
  | Some a =>
    delLid (lid req) ;;
    cell ← get_cell a;
    match link_of cell with
    | LinkRelay => todo req
    | _ =>
      match cell with
      | CFunction _ => log (EvCallback a (data req))
      | CObject _ =>
        unlink a ;;
        log (EvLinkClose a (data req))
      | CPrimitive v => throw (Raised (Ose_error "invalidSocket" v))
      end
    end
  end.

(** [v || d] for an optional string: the empty string is false. *)
Definition or_else (v : option string) (d : string) : string :=
  match v with
  | Some s => if String.eqb s "" then d else s
  | None => d
  end.

(** [exports.error = function(ws, req)]; [code] and [message] are
    [req.code] and [req.message]. *)
Definition exports_error (req : Req) (code message : option string)
    : M unit :=
  socket ← getLink req;
  match socket with
  | None => mret tt
  | Some a =>
    delLid (lid req) ;;
    unlink a ;;
    log (EvLinkFail a (or_else code "RX_ERROR") message (data req))
  end.

(** ** Notions used to state the properties *)

(** [socket.link] and [socket.ws] of the value at an address. *)
Definition link_at (c : Conn) (a : nat) : option LinkField :=
  link_of <$> cells c !! a.

Definition ws_at (c : Conn) (a : nat) : option (option nat) :=
  (λ ce, match ce with
         | CFunction s | CObject s => so_ws s
         | CPrimitive _ => None
         end) <$> cells c !! a.

(** Neither of the two values names the other, and the second passes no
    frames on. *)
Definition unpaired (c : Conn) (a b : nat) : Prop :=
  link_at c a = Some LinkUndefined ∧
  link_at c b = Some LinkUndefined ∧
  ws_at c b = Some None.

(** The connection after [ws.delLid(n)]. *)
Definition deregistered (n : Z) (c : Conn) : Conn :=
  {| links := delete (toString16 n) (links c); cells := cells c;
     trace := trace c ++ [EvDelLid (Some n)] |}.

(** ** A concrete connection

    Link 7 is the object at 0, linked with the object at 1, which passes
    frames on to the connection 3; link 8 is a function; link 9 a relay. *)
Definition demo_conn : Conn :=
  {| links := <["7" := 0%nat]> (<["8" := 2%nat]> (<["9" := 3%nat]> ∅));
     cells :=
       [ CObject {| so_link := LinkSocket 1; so_ws := None;
                    so_methods := ["close"] |};
         CObject {| so_link := LinkSocket 0; so_ws := Some 3%nat;
                    so_methods := [] |};
         CFunction {| so_link := LinkUndefined; so_ws := None;
                      so_methods := [] |};
         CObject {| so_link := LinkRelay; so_ws := None;
                    so_methods := [] |} ];
     trace := [] |}.

(** A frame of the given type for the given link, with the data 1. *)
Definition heap_frame (ty : string) (l : Z) : Req :=
  {| type := ty; lid := Some l; newLid := None; handlers := [];
     data := VNum 1; name := None |}.

End PeerRxHeap.

(** * Running a computation *)

Lemma bind_normal {S A B} (m : Exec S A) (f : A → Exec S B) w a w' :
  m w = (Normal a, w') → (m ≫= f) w = f a w'.
Proof. intros H. unfold mbind, Exec_bind. by rewrite H. Qed.

Lemma bind_thrown {S A B} (m : Exec S A) (f : A → Exec S B) w e w' :
  m w = (Thrown e, w') → (m ≫= f) w = (Thrown e, w').
Proof. intros H. unfold mbind, Exec_bind. by rewrite H. Qed.

(** * Properties of the RX handlers *)

Module PeerRxFacts.
Import PeerRx.

Lemma truthy_num_zero : truthy_num (Some 0) = None.
Proof. reflexivity. Qed.

Lemma truthy_num_some v n : truthy_num v = Some n ↔ v = Some n ∧ n ≠ 0.
Proof.
  destruct v as [m|]; simpl.
  - destruct (Z.eqb_spec m 0) as [->|Hm].
    + split; [discriminate|]. intros [[= <-] Hn]. by destruct Hn.
    + split; [intros [= <-]; by split|]. by intros [[= <-] _].
  - split; [discriminate|]. by intros [? _].
Qed.

Lemma getLink_found ws req n socket t :
  truthy_num (lid req) = Some n →
  links ws !! toString16 n = Some socket →
  getLink ws req t = (Normal (Some socket), t).
Proof. intros Hn Hl. unfold getLink. by rewrite Hn, Hl. Qed.

Lemma listed_true names n :
  listed names n = true ↔ ∃ s, n = Some s ∧ s ∈ names.
Proof.
  destruct n as [s|]; simpl.
  - rewrite bool_decide_eq_true. split; [by exists s|].
    by intros (s' & [= <-] & Hs).
  - split; [discriminate|]. by intros (s & ? & _).
Qed.

Lemma listed_false names n :
  listed names n = false ↔ ∀ s, n = Some s → s ∉ names.
Proof.
  destruct n as [s|]; simpl.
  - rewrite bool_decide_eq_false. split; [by intros Hs s' [= <-]|].
    intros H. by apply H.
  - split; [by intros _ s|done].
Qed.

(** C3.  Link id resolution.  A request that lacks a link id (the field is
    absent or, being tested with [!], zero) is logged as [MISSING_LINK] and
    dropped: nothing is sent.  A request whose link id has no socket in the
    link table is answered by [ws.txError] with [MISSING_LINK], unless its
    type is ['error']: then it is logged and nothing is sent.  In all three
    cases no socket is returned. *)
Theorem getLink_missing (ws : Ws) (req : Req) (t : list Event) :
  (truthy_num (lid req) = None →
   getLink ws req t =
     (Normal None, t ++ [EvLogError "MISSING_LINK" (DReq req)])) ∧
  (∀ n, truthy_num (lid req) = Some n →
        links ws !! toString16 n = None →
        type req ≠ "error" →
        getLink ws req t =
          (Normal None, t ++ [EvTxError n "MISSING_LINK" (DReq req)])) ∧
  (∀ n, truthy_num (lid req) = Some n →
        links ws !! toString16 n = None →
        type req = "error" →
        getLink ws req t =
          (Normal None, t ++ [EvLogError "MISSING_LINK" (DReq req)])).
Proof.
  unfold getLink. split; [|split].
  - intros ->. reflexivity.
  - intros n -> -> Hty.
    apply String.eqb_neq in Hty. rewrite Hty. reflexivity.
  - intros n -> -> Hty.
    apply String.eqb_eq in Hty. rewrite Hty. reflexivity.
Qed.

(** C10.  A frame whose [lid] is the integer 0 is taken as one without a
    link id, whatever the link table holds, also a socket under the key
    ["0"]: it is logged as [MISSING_LINK], no socket is returned and
    nothing is sent. *)
Theorem getLink_lid_zero (ws : Ws) (req : Req) (t : list Event) :
  lid req = Some 0 →
  getLink ws req t =
    (Normal None, t ++ [EvLogError "MISSING_LINK" (DReq req)]).
Proof. intros H. unfold getLink. rewrite H. reflexivity. Qed.

(** C7.  A command frame for a registered socket that does not pass frames
    through: a name on the forbidden list gives [FORBIDDEN_HANDLER] to
    [Ose.link.error] and that call is the only one made, so no method of
    the socket is invoked; a name off the list for which the socket has no
    function gives [MISSING_HANDLER] the same way. *)
Theorem command_rejected (forbiddenNames : list string) (ws : Ws) (req : Req)
    (n : Z) (socket : Socket) (t : list Event) :
  truthy_num (lid req) = Some n →
  links ws !! toString16 n = Some socket →
  so_ws socket = None →
  (∀ s, name req = Some s → s ∈ forbiddenNames →
     exports_command forbiddenNames ws req t =
       (Normal tt,
        t ++ [EvLinkError socket "FORBIDDEN_HANDLER" (DName (name req))])) ∧
  ((∀ s, name req = Some s → s ∉ forbiddenNames) →
   prop_key (name req) ∉ so_methods socket →
     exports_command forbiddenNames ws req t =
       (Normal tt,
        t ++ [EvLinkError socket "MISSING_HANDLER" (DName (name req))])).
Proof.
  intros Hn Hl Hws. unfold exports_command.
  erewrite bind_normal by (by eapply getLink_found).
  cbv beta iota. rewrite Hws. split.
  - intros s Hs Hin.
    assert (listed forbiddenNames (name req) = true) as ->
      by (apply listed_true; eauto).
    reflexivity.
  - intros Hout Hm.
    assert (listed forbiddenNames (name req) = false) as ->
      by (by apply listed_false).
    unfold is_function. rewrite bool_decide_eq_false_2 by done.
    reflexivity.
Qed.

(** An open frame for a registered socket that is no relay and has no
    [open] function: the private [error] is called with the string
    ['open'] as its data, which has no [lid], so the error is logged and
    [txError] is not called. *)
Lemma open_missing_handler (ws : Ws) (req : Req) (n : Z) (socket : Socket)
    (t : list Event) :
  truthy_num (lid req) = Some n →
  links ws !! toString16 n = Some socket →
  so_link socket ≠ LinkRelay →
  "open" ∉ so_methods socket →
  exports_open ws req t =
    (Normal tt, t ++ [EvLogError "MISSING_HANDLER" (DStr "open")]).
Proof.
  intros Hn Hl Hrelay Hopen. unfold exports_open.
  erewrite bind_normal by (by eapply getLink_found).
  cbv beta iota. unfold is_function.
  rewrite bool_decide_eq_false_2 by done.
  by destruct (so_link socket).
Qed.

Lemma getLink_missing_witness :
  getLink demo_ws (frame "open" None None) [] =
    (Normal None,
     [EvLogError "MISSING_LINK" (DReq (frame "open" None None))]) ∧
  getLink demo_ws (frame "open" (Some 9) None) [] =
    (Normal None,
     [EvTxError 9 "MISSING_LINK" (DReq (frame "open" (Some 9) None))]) ∧
  getLink demo_ws (frame "error" (Some 9) None) [] =
    (Normal None,
     [EvLogError "MISSING_LINK" (DReq (frame "error" (Some 9) None))]).
Proof.
  split; [|split].
  - apply (proj1 (getLink_missing demo_ws (frame "open" None None) [])).
    reflexivity.
  - apply (proj1 (proj2
      (getLink_missing demo_ws (frame "open" (Some 9) None) [])) 9).
    + reflexivity.
    + vm_compute. reflexivity.
    + discriminate.
  - apply (proj2 (proj2
      (getLink_missing demo_ws (frame "error" (Some 9) None) [])) 9).
    + reflexivity.
    + vm_compute. reflexivity.
    + reflexivity.
Defined.

Lemma getLink_lid_zero_witness :
  links demo_ws !! toString16 0 = Some plain_socket ∧
  getLink demo_ws (frame "command" (Some 0) (Some "update")) [] =
    (Normal None,
     [EvLogError "MISSING_LINK"
        (DReq (frame "command" (Some 0) (Some "update")))]).
Proof.
  split.
  - vm_compute. reflexivity.
  - apply (getLink_lid_zero demo_ws
             (frame "command" (Some 0) (Some "update")) []).
    reflexivity.
Defined.

Lemma command_rejected_witness :
  exports_command ["constructor"] demo_ws
      (frame "command" (Some 7) (Some "constructor")) [] =
    (Normal tt,
     [EvLinkError plain_socket "FORBIDDEN_HANDLER"
        (DName (Some "constructor"))]) ∧
  exports_command ["constructor"] demo_ws
      (frame "command" (Some 7) (Some "remove")) [] =
    (Normal tt,
     [EvLinkError plain_socket "MISSING_HANDLER" (DName (Some "remove"))]).
Proof.
  split.
  - refine (proj1 (command_rejected ["constructor"] demo_ws
      (frame "command" (Some 7) (Some "constructor")) 7 plain_socket []
      _ _ _) "constructor" _ _).
    + reflexivity.
    + vm_compute. reflexivity.
    + reflexivity.
    + reflexivity.
    + apply list_elem_of_here.
  - refine (proj2 (command_rejected ["constructor"] demo_ws
      (frame "command" (Some 7) (Some "remove")) 7 plain_socket []
      _ _ _) _ _).
    + reflexivity.
    + vm_compute. reflexivity.
    + reflexivity.
    + intros s [= <-].
      apply (proj1 (bool_decide_eq_false _)). vm_compute. reflexivity.
    + apply (proj1 (bool_decide_eq_false _)). vm_compute. reflexivity.
Defined.

(** C9.  An open frame for link 26, whose socket is no relay and has no
    [open] function: the [MISSING_HANDLER] error is logged and that is the
    only call made; no error frame goes back to the sender. *)
Theorem open_missing_handler_not_sent :
  exports_open demo_ws (frame "open" (Some 26) None) [] =
    (Normal tt, [EvLogError "MISSING_HANDLER" (DStr "open")]).
Proof. vm_compute. reflexivity. Qed.

End PeerRxFacts.

(** * Properties of the slave shard client socket *)

Module ShardSlaveFacts.
Import ShardSlave.

Lemma get_socket_some w k so :
  sockets w !! k = Some so → get_socket k w = (Normal so, w).
Proof. intros H. unfold get_socket. by rewrite H. Qed.

Lemma get_shard_some w s sh :
  shards w !! s = Some sh → get_shard s w = (Normal sh, w).
Proof. intros H. unfold get_shard. by rewrite H. Qed.

Lemma get_peer_some w p pe :
  peers w !! p = Some pe → get_peer p w = (Normal pe, w).
Proof. intros H. unfold get_peer. by rewrite H. Qed.

(** Unfolding one call after the other, with the lookups known. *)
Ltac run_step :=
  first
    [ erewrite bind_normal by (by eapply get_socket_some)
    | erewrite bind_normal by (by eapply get_shard_some)
    | erewrite bind_normal by (by eapply get_peer_some)
    | erewrite bind_normal by reflexivity ];
  cbv beta iota.

Lemma for_each_log {A} (f : A → Event) (l : list A) (w : World) :
  for_each (λ a, log (f a)) l w =
    (Normal tt, set_trace (λ t, t ++ map f l) w).
Proof.
  revert w. induction l as [|a l IH]; intros w; simpl.
  - destruct w. unfold set_trace. simpl. by rewrite app_nil_r.
  - erewrite bind_normal by reflexivity. rewrite IH.
    destruct w. unfold set_trace. simpl. by rewrite <- app_assoc.
Qed.

Lemma setSynced_run w s sh b :
  shards w !! s = Some sh →
  setSynced s b w =
    (Normal tt,
     {| shards := alter (with_synced b) s (shards w);
        sockets := sockets w; peers := peers w; timers := timers w;
        trace := trace w ++ [EvSetSynced s b] |}).
Proof. intros H. unfold setSynced. by repeat run_step. Qed.

Lemma emit_done_run w k so err :
  sockets w !! k = Some so →
  emit_done k err w =
    (Normal tt,
     {| shards := shards w;
        sockets := alter (with_done []) k (sockets w);
        peers := peers w; timers := timers w;
        trace := trace w ++ done_calls k err (so_done so) |}).
Proof.
  intros H. unfold emit_done. repeat run_step.
  rewrite for_each_log. unfold set_trace, done_calls. simpl.
  by rewrite <- app_assoc.
Qed.

(** *** The teardown *)

Lemma close_dismantle w k s so sh err :
  sockets w !! k = Some so → so_shard so = Some s →
  shards w !! s = Some sh → sh_check2Link sh = false →
  close k err w =
    (Normal tt,
     {| shards := alter (with_master None) s
                    (alter (with_synced false) s (shards w));
        sockets := alter (with_shard None) k (sockets w);
        peers := peers w; timers := timers w;
        trace := trace w ++ [EvSetSynced s false] |}).
Proof.
  intros Hk Hs Hsh Hc. unfold close. run_step. rewrite Hs.
  erewrite bind_normal by (by eapply setSynced_run).
  erewrite bind_normal; last first.
  { eapply get_shard_some. simpl. rewrite list_lookup_alter_eq, Hsh.
    reflexivity. }
  simpl. rewrite Hc. by repeat run_step.
Qed.

Lemma close_no_error w k s so sh :
  sockets w !! k = Some so → so_shard so = Some s →
  shards w !! s = Some sh → sh_check2Link sh = true →
  close k None w =
    (Thrown TypeError,
     {| shards := alter (with_synced false) s (shards w);
        sockets := sockets w; peers := peers w; timers := timers w;
        trace := trace w ++ [EvSetSynced s false] |}).
Proof.
  intros Hk Hs Hsh Hc. unfold close. run_step. rewrite Hs.
  erewrite bind_normal by (by eapply setSynced_run).
  erewrite bind_normal; last first.
  { eapply get_shard_some. simpl. rewrite list_lookup_alter_eq, Hsh.
    reflexivity. }
  simpl. rewrite Hc. reflexivity.
Qed.

(** The close handler in that case, on any heap: the [TypeError] leaves
    the handler before ['done'] is emitted. *)
Lemma exports_close_needed w k s so sh :
  sockets w !! k = Some so → so_shard so = Some s →
  shards w !! s = Some sh → sh_check2Link sh = true →
  exports_close k w =
    (Thrown TypeError,
     {| shards := alter (with_synced false) s (shards w);
        sockets := sockets w; peers := peers w; timers := timers w;
        trace := trace w ++ [EvSetSynced s false] |}).
Proof.
  intros Hk Hs Hsh Hc. unfold exports_close.
  by erewrite bind_thrown by (by eapply close_no_error).
Qed.

Lemma close_retry w k s so sh e :
  sockets w !! k = Some so → so_shard so = Some s →
  shards w !! s = Some sh → sh_check2Link sh = true →
  close k (Some e) w =
    (Normal tt,
     {| shards := alter (with_synced false) s (shards w);
        sockets := sockets w; peers := peers w;
        timers := if String.eqb (err_code e) "DISCONNECTED"
                  then timers w ++ [(1000, k)] else timers w;
        trace := trace w ++ [EvSetSynced s false] |}).
Proof.
  intros Hk Hs Hsh Hc. unfold close. run_step. rewrite Hs.
  erewrite bind_normal by (by eapply setSynced_run).
  erewrite bind_normal; last first.
  { eapply get_shard_some. simpl. rewrite list_lookup_alter_eq, Hsh.
    reflexivity. }
  simpl. rewrite Hc. run_step.
  by destruct (String.eqb (err_code e) "DISCONNECTED").
Qed.

(** C5.  When [check2Link()] answers false, the teardown, entered by the
    close or the error handler with whatever error, deletes [shard.master]
    and [socket.shard] before it returns and sets no timer; the handlers
    then return too, with both references still gone. *)
Theorem teardown_dismantles (w : World) (k s : nat) (so : Socket)
    (sh : Shard) (err : option OseErr) :
  sockets w !! k = Some so → so_shard so = Some s →
  shards w !! s = Some sh → sh_check2Link sh = false →
  dismantled w k s (close k err w) ∧
  dismantled w k s (exports_close k w) ∧
  dismantled w k s (exports_error k err w).
Proof.
  intros Hk Hs Hsh Hc.
  assert (∀ e, dismantled w k s (close k e w)) as Hclose.
  { intros e. erewrite close_dismantle by done. unfold dismantled. simpl.
    by rewrite !list_lookup_alter_eq, Hsh, Hk. }
  assert (∀ e e', dismantled w k s ((close k e ;; emit_done k e') w)) as Hboth.
  { intros e e'. erewrite bind_normal by (by eapply close_dismantle).
    erewrite emit_done_run; last first.
    { simpl. by rewrite list_lookup_alter_eq, Hk. }
    unfold dismantled. simpl.
    by rewrite !list_lookup_alter_eq, Hsh, Hk. }
  split; [apply Hclose|]. split; apply Hboth.
Qed.

Lemma teardown_dismantles_witness :
  dismantled (linked_world false) 0 0
    (exports_error 0 (Some (Ose_error "DISCONNECTED" VUndefined))
       (linked_world false)).
Proof.
  apply (teardown_dismantles (linked_world false) 0 0 linked_socket
           (linked_shard false)
           (Some (Ose_error "DISCONNECTED" VUndefined))); reflexivity.
Defined.

(** C1.  The close handler on a socket whose shard answers true to
    [check2Link()]: the teardown gets no error, reading [err.code] throws a
    [TypeError], no timer is set and ['done'] is not emitted; the shard has
    been marked as not synced. *)
Theorem close_needed_throws :
  exports_close 0 (linked_world true) =
    (Thrown TypeError,
     {| shards := alter (with_synced false) 0%nat
                    (shards (linked_world true));
        sockets := sockets (linked_world true);
        peers := peers (linked_world true);
        timers := [];
        trace := [EvSetSynced 0 false] |}).
Proof. vm_compute. reflexivity. Qed.

(** The sibling path: the error handler with a [DISCONNECTED] error sets
    the timer that retries [connect] after 1000 ms and keeps both
    references. *)
Lemma error_disconnected_retries w k s so sh e :
  sockets w !! k = Some so → so_shard so = Some s →
  shards w !! s = Some sh → sh_check2Link sh = true →
  err_code e = "DISCONNECTED" →
  let r := exports_error k (Some e) w in
  r.1 = Normal tt ∧
  timers r.2 = timers w ++ [(1000, k)] ∧
  sh_master <$> shards r.2 !! s = Some (sh_master sh) ∧
  so_shard <$> sockets r.2 !! k = Some (Some s).
Proof.
  intros Hk Hs Hsh Hc He. unfold exports_error.
  erewrite bind_normal by (by eapply close_retry).
  erewrite emit_done_run by done. simpl.
  rewrite He, !list_lookup_alter_eq, Hsh, Hk. simpl. by rewrite Hs.
Qed.

(** *** The synced handler *)

(** C8.  The synced handler applies a boolean payload with
    [shard.setSynced]; for any other payload it calls [Ose.link.error] with
    an [invalidSynced] error, and that is all it does: [setSynced] is not
    called and the heap is as before. *)
Theorem synced_boolean_only (w : World) (k s : nat) (so : Socket)
    (sh : Shard) (data : JsVal) :
  sockets w !! k = Some so → so_shard so = Some s →
  shards w !! s = Some sh →
  (∀ b, data = VBool b →
     exports_synced k data w =
       (Normal tt,
        {| shards := alter (with_synced b) s (shards w);
           sockets := sockets w; peers := peers w; timers := timers w;
           trace := trace w ++ [EvSetSynced s b] |})) ∧
  (typeof data ≠ "boolean" →
     exports_synced k data w =
       (Normal tt,
        {| shards := shards w;
           sockets := sockets w; peers := peers w; timers := timers w;
           trace := trace w ++
                    [EvLinkError k (Ose_error "invalidSynced" data)] |})).
Proof.
  intros Hk Hs Hsh. split.
  - intros b ->. unfold exports_synced. run_step. rewrite Hs. run_step.
    by eapply setSynced_run.
  - intros Hty. by destruct data.
Qed.

Lemma synced_boolean_only_witness :
  exports_synced 0 (VBool true) (linked_world true) =
    (Normal tt,
     {| shards := alter (with_synced true) 0%nat
                    (shards (linked_world true));
        sockets := sockets (linked_world true);
        peers := peers (linked_world true);
        timers := [];
        trace := [EvSetSynced 0 true] |}) ∧
  exports_synced 0 (VStr "yes") (linked_world true) =
    (Normal tt,
     {| shards := shards (linked_world true);
        sockets := sockets (linked_world true);
        peers := peers (linked_world true);
        timers := [];
        trace := [EvLinkError 0 (Ose_error "invalidSynced" (VStr "yes"))] |}).
Proof.
  split.
  - apply (synced_boolean_only (linked_world true) 0 0 linked_socket
             (linked_shard true) (VBool true)); reflexivity.
  - apply (synced_boolean_only (linked_world true) 0 0 linked_socket
             (linked_shard true) (VStr "yes"));
      [reflexivity | reflexivity | reflexivity | discriminate].
Defined.

(** The two cases of the synced handler, for the proofs below. *)
Lemma exports_synced_run (w : World) (k s : nat) (so : Socket) (sh : Shard)
    (data : JsVal) :
  sockets w !! k = Some so → so_shard so = Some s →
  shards w !! s = Some sh →
  (∀ b, data = VBool b →
     exports_synced k data w =
       (Normal tt,
        {| shards := alter (with_synced b) s (shards w);
           sockets := sockets w; peers := peers w; timers := timers w;
           trace := trace w ++ [EvSetSynced s b] |})) ∧
  (typeof data ≠ "boolean" →
     exports_synced k data w =
       (Normal tt,
        {| shards := shards w;
           sockets := sockets w; peers := peers w; timers := timers w;
           trace := trace w ++
                    [EvLinkError k (Ose_error "invalidSynced" data)] |})).
Proof.
  intros Hk Hs Hsh. split.
  - intros b ->. unfold exports_synced. run_step. rewrite Hs. run_step.
    by eapply setSynced_run.
  - intros Hty. by destruct data.
Qed.

(** *** The open handler *)

Lemma dependents_cons key e cache :
  dependents ((key, e) :: cache) =
    match en_slaves e with
    | Some _ => key :: dependents cache
    | None => dependents cache
    end.
Proof.
  unfold dependents. rewrite filter_cons. simpl.
  destruct (en_slaves e) as [l|]; reflexivity.
Qed.

Lemma for_each_linkMaster s cache w :
  for_each (λ '(key, entry),
            match en_slaves entry with
            | None => mret tt
            | Some _ => log (EvLinkMaster s key)
            end) cache w =
    (Normal tt,
     set_trace (λ t, t ++ map (EvLinkMaster s) (dependents cache)) w).
Proof.
  revert w. induction cache as [|[key e] cache IH]; intros w.
  - destruct w. unfold set_trace. simpl. by rewrite app_nil_r.
  - rewrite dependents_cons. simpl for_each.
    destruct (en_slaves e); erewrite bind_normal by reflexivity; rewrite IH.
    + destruct w. unfold set_trace. simpl. by rewrite <- app_assoc.
    + reflexivity.
Qed.

(** C4, amended.  The open handler, given data whose [synced] property can
    be read, calls [linkMaster] on the cache entries that have dependents
    and on no other, in cache order; it hands [data.synced] to the synced
    handler, which applies it to the shard when it is a boolean and
    otherwise reports [invalidSynced] with [Ose.link.error], leaving the
    shard's flag as it was; then it emits ['done'] with a null error. *)
Theorem open_resyncs (w : World) (k s : nat) (so : Socket) (sh : Shard)
    (data v : JsVal) :
  sockets w !! k = Some so → so_shard so = Some s →
  shards w !! s = Some sh →
  prop data "synced" = Some v →
  let r := exports_open k data w in
  r.1 = Normal tt ∧
  trace r.2 = trace w ++ map (EvLinkMaster s) (dependents (sh_cache sh))
                      ++ [synced_call k s v]
                      ++ done_calls k None (so_done so) ∧
  sh_synced <$> shards r.2 !! s =
    Some (match v with VBool b => b | _ => sh_synced sh end).
Proof.
  intros Hk Hs Hsh Hv. unfold exports_open. run_step. rewrite Hs.
  do 2 run_step. rewrite Hv.
  erewrite bind_normal by apply for_each_linkMaster.
  run_step.
  set (w1 := set_trace _ w).
  assert (sockets w1 !! k = Some so) as Hk1 by done.
  assert (shards w1 !! s = Some sh) as Hsh1 by done.
  destruct (exports_synced_run w1 k s so sh v Hk1 Hs Hsh1) as [Hb Hnb].
  assert (typeof v = "boolean" → ∃ b, v = VBool b) as Hbool.
  { destruct v; try discriminate. eauto. }
  destruct (decide (typeof v = "boolean")) as [Hty|Hty].
  - destruct (Hbool Hty) as [b ->].
    erewrite bind_normal by (by apply Hb).
    erewrite emit_done_run by done. simpl.
    rewrite list_lookup_alter_eq, Hsh. by rewrite <- !app_assoc.
  - erewrite bind_normal by (by apply Hnb).
    erewrite emit_done_run by done. simpl.
    rewrite Hsh. rewrite <- !app_assoc. by destruct v.
Qed.

Lemma open_resyncs_witness :
  let r := exports_open 0 (VObj [("synced", VBool true)])
             (linked_world true) in
  r.1 = Normal tt ∧
  trace r.2 = [EvLinkMaster 0 "a"; EvLinkMaster 0 "c"; EvSetSynced 0 true;
               EvEmitDone 0 None; EvListener 5 None] ∧
  sh_synced <$> shards r.2 !! 0%nat = Some true.
Proof.
  apply (open_resyncs (linked_world true) 0 0 linked_socket
           (linked_shard true) (VObj [("synced", VBool true)]) (VBool true));
    reflexivity.
Defined.

(** C4 as stated fails: with [{synced: 1}] the entries are re-linked and
    ['done'] is emitted, but [setSynced] is not called and the shard is as
    before; the value goes to [Ose.link.error] instead. *)
Lemma open_number_not_applied :
  exports_open 0 (VObj [("synced", VNum 1)]) (linked_world true) =
    (Normal tt,
     {| shards := shards (linked_world true);
        sockets := alter (with_done []) 0%nat (sockets (linked_world true));
        peers := peers (linked_world true);
        timers := [];
        trace := [EvLinkMaster 0 "a"; EvLinkMaster 0 "c";
                  EvLinkError 0 (Ose_error "invalidSynced" (VNum 1));
                  EvEmitDone 0 None; EvListener 5 None] |}).
Proof. vm_compute. reflexivity. Qed.

(** *** Connecting *)

Lemma bind_ret_tt (m : M unit) w : (m ;; mret tt) w = m w.
Proof.
  unfold mbind, Exec_bind. destruct (m w) as [[[]|e] w']; reflexivity.
Qed.

(** C6.  [connect] for a socket whose peer is not connected emits ['done']
    with a [DISCONNECTED] error and appends one listener, for this socket,
    to the [once('connected')] listeners of the peer; the link table of the
    peer and the link id of the socket are as before and nothing is sent.
    When the peer then emits ['connected'], the listener is removed and
    runs [connect] for the socket. *)
Theorem connect_disconnected (w : World) (k p : nat) (so : Socket)
    (pe : Peer) :
  sockets w !! k = Some so → so_peer so = Some p →
  peers w !! p = Some pe → pe_isConnected pe = false →
  let w' :=
    {| shards := shards w;
       sockets := alter (with_done []) k (sockets w);
       peers := alter (with_connected (pe_connected pe ++ [k])) p (peers w);
       timers := timers w;
       trace := trace w ++
                done_calls k (Some (Ose_error "DISCONNECTED" VUndefined))
                  (so_done so) |} in
  connect k w = (Normal tt, w') ∧
  pe_ws <$> peers w' !! p = Some (pe_ws pe) ∧
  so_lid <$> sockets w' !! k = Some (so_lid so) ∧
  (pe_connected pe = [] →
   emit_connected p w' =
     connect k (set_peers (alter (with_connected []) p) w')).
Proof.
  intros Hk Hp Hpe Hc. simpl. split; [|split; [|split]].
  - unfold connect. run_step. rewrite Hp. do 2 run_step. rewrite Hc.
    erewrite bind_normal by (by eapply emit_done_run).
    unfold once_connected. by repeat run_step.
  - by rewrite list_lookup_alter_eq, Hpe.
  - by rewrite list_lookup_alter_eq, Hk.
  - intros Hnil. rewrite Hnil. unfold emit_connected.
    erewrite bind_normal; last first.
    { eapply get_peer_some. simpl.
      rewrite list_lookup_alter_eq, Hpe. reflexivity. }
    simpl. rewrite bind_ret_tt.
    erewrite bind_normal; last first.
    { eapply get_peer_some. simpl.
      rewrite list_lookup_alter_eq, Hpe. reflexivity. }
    simpl. rewrite Nat.eqb_refl. by run_step.
Qed.

Lemma connect_disconnected_witness :
  connect 0 (linked_world true) =
    (Normal tt,
     {| shards := shards (linked_world true);
        sockets := alter (with_done []) 0%nat (sockets (linked_world true));
        peers := alter (with_connected [0%nat]) 0%nat
                   (peers (linked_world true));
        timers := [];
        trace := [EvEmitDone 0 (Some (Ose_error "DISCONNECTED" VUndefined));
                  EvListener 5
                    (Some (Ose_error "DISCONNECTED" VUndefined))] |}).
Proof.
  apply (connect_disconnected (linked_world true) 0 0 linked_socket
           absent_peer); reflexivity.
Defined.

(** *** One master per shard *)

Lemma same_links_refl w : same_links w w.
Proof. by split. Qed.

Lemma same_links_trans w1 w2 w3 :
  same_links w1 w2 → same_links w2 w3 → same_links w1 w3.
Proof.
  intros [Hk Hs] [Hk' Hs']. split; intros i.
  - by rewrite Hk', Hk.
  - by rewrite Hs', Hs.
Qed.

Lemma master_unique_same_links w w' :
  master_unique w → same_links w w' → master_unique w'.
Proof.
  intros Hinv [Hk Hs] k s. rewrite Hk, Hs. apply Hinv.
Qed.

Lemma master_unique_at_most_one w :
  master_unique w → at_most_one_master w.
Proof.
  intros Hinv s k1 k2 H1 H2.
  apply Hinv in H1. apply Hinv in H2. congruence.
Qed.

Lemma lookup_alter_keeps {A B} (g : A → B) (f : A → A) (l : list A) i j :
  (∀ x, g (f x) = g x) → g <$> alter f i l !! j = g <$> l !! j.
Proof.
  intros Hf. destruct (decide (i = j)) as [->|Hne].
  - rewrite list_lookup_alter_eq. destruct (l !! j); simpl; by rewrite ?Hf.
  - by rewrite list_lookup_alter_ne.
Qed.

Lemma keeps_ret {A} (a : A) : keeps_links (mret a).
Proof. intros w. apply same_links_refl. Qed.

Lemma keeps_throw {A} e : keeps_links (throw e : M A).
Proof. intros w. apply same_links_refl. Qed.

Lemma keeps_bind {A B} (m : M A) (f : A → M B) :
  keeps_links m → (∀ a, keeps_links (f a)) → keeps_links (m ≫= f).
Proof.
  intros Hm Hf w. unfold mbind, Exec_bind. specialize (Hm w).
  destruct (m w) as [[a|e] w1]; simpl in *; [|done].
  eapply same_links_trans; [done|apply Hf].
Qed.

Lemma keeps_deref {A} (r : option A) : keeps_links (deref r).
Proof. destruct r; [apply keeps_ret|apply keeps_throw]. Qed.

Lemma keeps_read {A} (g : World → option A) :
  keeps_links (λ w, deref (g w) w).
Proof. intros w. apply (keeps_deref (g w)). Qed.

Lemma keeps_log e : keeps_links (log e).
Proof. intros w. by split. Qed.

Lemma keeps_setTimeout d k : keeps_links (setTimeout d k).
Proof. intros w. by split. Qed.

Lemma keeps_upd_peer p f : keeps_links (upd_peer p f).
Proof. intros w. by split. Qed.

Lemma keeps_upd_shard s f :
  (∀ sh, sh_master (f sh) = sh_master sh) → keeps_links (upd_shard s f).
Proof.
  intros Hf w. split; [done|]. intros i. simpl. by apply lookup_alter_keeps.
Qed.

Lemma keeps_upd_socket k f :
  (∀ so, so_shard (f so) = so_shard so) → keeps_links (upd_socket k f).
Proof.
  intros Hf w. split; [|done]. intros i. simpl. by apply lookup_alter_keeps.
Qed.

Lemma keeps_for_each {A} (f : A → M unit) (l : list A) :
  (∀ a, keeps_links (f a)) → keeps_links (for_each f l).
Proof.
  intros Hf. induction l as [|a l IH]; simpl.
  - apply keeps_ret.
  - apply keeps_bind; [apply Hf|by intros _].
Qed.

Create HintDb links.
#[local] Hint Resolve keeps_ret keeps_throw keeps_deref keeps_log
  keeps_setTimeout keeps_upd_peer : links.

Ltac keeps :=
  repeat first
    [ apply keeps_bind; [|intros ?]
    | apply keeps_for_each; intros ?
    | apply keeps_upd_shard; by intros ?
    | apply keeps_upd_socket; by intros ?
    | apply (keeps_read (λ w, shards w !! _))
    | apply (keeps_read (λ w, sockets w !! _))
    | apply (keeps_read (λ w, peers w !! _))
    | apply (keeps_read (λ w, timers w !! _))
    | solve [auto with links]
    | match goal with
      | |- keeps_links (match ?x with _ => _ end) => destruct x
      end ].

Lemma keeps_setSynced s b : keeps_links (setSynced s b).
Proof. unfold setSynced. keeps. Qed.

Lemma keeps_emit_done k err : keeps_links (emit_done k err).
Proof. unfold emit_done. keeps. Qed.

Lemma keeps_once_done k cb : keeps_links (once_done k cb).
Proof. unfold once_done. keeps. Qed.

Lemma keeps_addLink p k : keeps_links (addLink p k).
Proof. unfold addLink. keeps. Qed.

#[local] Hint Resolve keeps_setSynced keeps_emit_done keeps_once_done
  keeps_addLink : links.

Lemma keeps_connect k : keeps_links (connect k).
Proof. unfold connect, once_connected. keeps. Qed.

#[local] Hint Resolve keeps_connect : links.

Lemma keeps_synced k data : keeps_links (exports_synced k data).
Proof. unfold exports_synced, link_error. keeps. Qed.

#[local] Hint Resolve keeps_synced : links.

Lemma keeps_open k data : keeps_links (exports_open k data).
Proof. unfold exports_open. keeps. Qed.

Lemma keeps_emit_connected p : keeps_links (emit_connected p).
Proof. unfold emit_connected. keeps. Qed.

Lemma keeps_fire_timer i : keeps_links (fire_timer i).
Proof.
  unfold fire_timer. keeps.
  intros w. by split.
Qed.

(** Deleting [s.master] and [that.shard] together, for a socket [k] that
    refers to [s]. *)
Lemma master_unique_dismantle w k s :
  master_unique w →
  so_shard <$> sockets w !! k = Some (Some s) →
  master_unique
    {| shards := alter (with_master None) s (shards w);
       sockets := alter (with_shard None) k (sockets w);
       peers := peers w; timers := timers w; trace := trace w |}.
Proof.
  intros Hinv Hk k' s'. simpl. intros Hk'.
  destruct (decide (k = k')) as [<-|Hne].
  - rewrite list_lookup_alter_eq in Hk'.
    destruct (sockets w !! k); discriminate.
  - rewrite list_lookup_alter_ne in Hk' by done.
    destruct (decide (s = s')) as [<-|Hs].
    + apply Hinv in Hk. apply Hinv in Hk'. congruence.
    + rewrite list_lookup_alter_ne by done. by apply Hinv.
Qed.

Lemma close_master_unique k err w :
  master_unique w → master_unique (close k err w).2.
Proof.
  intros Hinv. unfold close.
  destruct (sockets w !! k) as [so|] eqn:Hk; last first.
  { erewrite bind_thrown; [done|]. unfold get_socket. by rewrite Hk. }
  run_step. destruct (so_shard so) as [s|] eqn:Hs; [|done].
  destruct (shards w !! s) as [sh|] eqn:Hsh; last first.
  { erewrite bind_thrown; [done|]. unfold setSynced.
    erewrite bind_thrown; [done|]. unfold get_shard. by rewrite Hsh. }
  erewrite bind_normal by (by eapply setSynced_run).
  erewrite bind_normal; last first.
  { eapply get_shard_some. simpl. rewrite list_lookup_alter_eq, Hsh.
    reflexivity. }
  set (w1 := Build_World _ _ _ _ _).
  assert (master_unique w1) as Hinv1.
  { eapply master_unique_same_links; [done|].
    split; [done|]. intros i. simpl. by apply lookup_alter_keeps. }
  simpl. destruct (sh_check2Link sh).
  - eapply master_unique_same_links; [done|].
    apply (keeps_bind (deref err)); [apply keeps_deref|].
    intros e. destruct (String.eqb _ _); auto with links.
  - repeat run_step.
    apply (master_unique_dismantle w1 k s); [done|].
    simpl. by rewrite Hk, <- Hs.
Qed.

Lemma after_close_master_unique k err err' w :
  master_unique w → master_unique ((close k err ;; emit_done k err') w).2.
Proof.
  intros Hinv. apply (close_master_unique k err) in Hinv.
  unfold mbind, Exec_bind. destruct (close k err w) as [[[]|e] w1]; [|done].
  eapply master_unique_same_links; [done|]. apply keeps_emit_done.
Qed.

Lemma C_fresh shard peer cb w sh :
  shards w !! shard = Some sh → sh_master sh = None →
  C shard peer cb w =
    (connect (length (sockets w)) ;; mret (length (sockets w)))
      (constructed shard peer cb w).
Proof.
  intros Hsh Hm. unfold C. do 2 run_step. rewrite Hm. do 2 run_step.
  assert (∀ (x : Socket) f l, alter f (length l) (l ++ [x]) = l ++ [f x])
    as Halter.
  { intros x f l. rewrite alter_app_r_alt, Nat.sub_diag by done. done. }
  destruct cb as [f|]; unfold once_done.
  - erewrite bind_normal; last first.
    { erewrite bind_normal; last first.
      { eapply get_socket_some. simpl.
        rewrite Halter, list_lookup_middle; done. }
      reflexivity. }
    run_step.
    unfold constructed, upd_socket, modify, set_sockets, set_shards.
    simpl. by rewrite !Halter.
  - do 2 run_step.
    unfold constructed, upd_socket, modify, set_sockets, set_shards.
    simpl. by rewrite !Halter.
Qed.

Lemma constructed_master_unique shard peer cb w sh :
  shards w !! shard = Some sh → sh_master sh = None →
  master_unique w → master_unique (constructed shard peer cb w).
Proof.
  intros Hsh Hm Hinv k s. simpl. intros Hk.
  destruct (decide (k < length (sockets w))%nat) as [Hlt|Hge].
  - rewrite lookup_app_l in Hk by done.
    apply Hinv in Hk as Hs.
    destruct (decide (shard = s)) as [->|Hne].
    + rewrite Hsh in Hs. simpl in Hs. congruence.
    + by rewrite list_lookup_alter_ne.
  - destruct (decide (k = length (sockets w))) as [->|Hne].
    + rewrite list_lookup_middle in Hk by done. simpl in Hk.
      injection Hk as [= <-].
      by rewrite list_lookup_alter_eq, Hsh.
    + rewrite lookup_ge_None_2 in Hk; [done|].
      rewrite length_app. simpl. lia.
Qed.

Lemma C_master_unique shard peer cb w :
  master_unique w → master_unique (C shard peer cb w).2.
Proof.
  intros Hinv.
  destruct (shards w !! shard) as [sh|] eqn:Hsh; last first.
  { unfold C. run_step. erewrite bind_thrown; last first.
    { unfold get_shard. simpl. by rewrite Hsh. }
    intros k s. simpl. intros Hk. apply Hinv.
    destruct (decide (k < length (sockets w))%nat) as [Hlt|Hge].
    - by rewrite lookup_app_l in Hk.
    - destruct (decide (k = length (sockets w))) as [->|Hne].
      + by rewrite list_lookup_middle in Hk.
      + rewrite lookup_ge_None_2 in Hk; [done|].
        rewrite length_app. simpl. lia. }
  destruct (sh_master sh) as [m|] eqn:Hm.
  - unfold C. do 2 run_step. rewrite Hm.
    intros k s. simpl. intros Hk. apply Hinv.
    destruct (decide (k < length (sockets w))%nat) as [Hlt|Hge].
    + by rewrite lookup_app_l in Hk.
    + destruct (decide (k = length (sockets w))) as [->|Hne].
      * by rewrite list_lookup_middle in Hk.
      * rewrite lookup_ge_None_2 in Hk; [done|].
        rewrite length_app. simpl. lia.
  - erewrite C_fresh by done.
    eapply master_unique_same_links.
    { by eapply constructed_master_unique. }
    apply (keeps_bind (connect _)); [apply keeps_connect|].
    intros _. apply keeps_ret.
Qed.

Lemma after_master_unique c w :
  master_unique w → master_unique (after c w).
Proof.
  intros Hinv. destruct c; simpl.
  - by apply C_master_unique.
  - eapply master_unique_same_links; [done|apply keeps_open].
  - by apply after_close_master_unique.
  - by apply after_close_master_unique.
  - eapply master_unique_same_links; [done|apply keeps_synced].
  - eapply master_unique_same_links; [done|apply keeps_emit_connected].
  - eapply master_unique_same_links; [done|apply keeps_fire_timer].
Qed.

Lemma reachable_master_unique w : reachable w → master_unique w.
Proof.
  induction 1 as [w Hnil _|w c _ IH|w w' _ IH Hsame].
  - intros k s. by rewrite Hnil.
  - by apply after_master_unique.
  - by eapply master_unique_same_links.
Qed.

Lemma C_duplicate shard peer cb w sh m :
  shards w !! shard = Some sh → sh_master sh = Some m →
  C shard peer cb w =
    (Thrown (Raised (Ose_error "duplicitMaster" VUndefined)),
     set_sockets (λ l, l ++ [blank_socket]) w).
Proof.
  intros Hsh Hm. unfold C. do 2 run_step. by rewrite Hm.
Qed.

(** C2.  In every heap that can arise no two sockets refer to the same
    shard.  There the constructor, called for a shard that has a master,
    throws [duplicitMaster] and changes nothing but for the unreachable
    object that [new] made; called for a shard without a master, it makes
    the new socket the master of the shard and then runs [connect] in that
    heap, and the socket is still the master when the constructor ends. *)
Theorem one_master_per_shard (w : World) :
  reachable w →
  at_most_one_master w ∧
  (∀ shard peer cb sh m,
     shards w !! shard = Some sh → sh_master sh = Some m →
     C shard peer cb w =
       (Thrown (Raised (Ose_error "duplicitMaster" VUndefined)),
        set_sockets (λ l, l ++ [blank_socket]) w)) ∧
  (∀ shard peer cb sh,
     shards w !! shard = Some sh → sh_master sh = None →
     let this := length (sockets w) in
     let w1 := constructed shard peer cb w in
     sh_master <$> shards w1 !! shard = Some (Some this) ∧
     C shard peer cb w = (connect this ;; mret this) w1 ∧
     sh_master <$> shards (C shard peer cb w).2 !! shard =
       Some (Some this)).
Proof.
  intros Hreach. split; [|split].
  - by apply master_unique_at_most_one, reachable_master_unique.
  - intros shard peer cb sh m Hsh Hm. by eapply C_duplicate.
  - intros shard peer cb sh Hsh Hm this w1.
    assert (sh_master <$> shards w1 !! shard = Some (Some this)) as H1.
    { subst w1. simpl. by rewrite list_lookup_alter_eq, Hsh. }
    split; [done|]. split; [by eapply C_fresh|].
    erewrite C_fresh by done. fold this. fold w1.
    assert (keeps_links (connect this ;; mret this)) as Hkeeps.
    { apply (keeps_bind (connect _)); [apply keeps_connect|].
      intros _. apply keeps_ret. }
    destruct (Hkeeps w1) as [_ ->]. done.
Qed.

Lemma one_master_per_shard_witness :
  let w := after (CallC 0 0 (Some 5%nat)) fresh_world in
  at_most_one_master w ∧
  C 0 0 None w =
    (Thrown (Raised (Ose_error "duplicitMaster" VUndefined)),
     set_sockets (λ l, l ++ [blank_socket]) w).
Proof.
  intros w.
  assert (reachable w) as Hw.
  { apply reach_call, reach_start; [reflexivity|].
    repeat constructor. }
  destruct (one_master_per_shard w Hw) as (Hone & Hdup & _).
  split; [exact Hone|].
  apply (Hdup 0%nat 0%nat None
           (with_master (Some 0%nat) (linked_shard true)) 0%nat);
    reflexivity.
Defined.

End ShardSlaveFacts.

(** * Further properties of the slave shard client socket *)

Module ShardSlaveMore.
Import ShardSlave ShardSlaveData ShardSlaveFacts.

(** [connect] for a peer that is not connected. *)
Lemma connect_absent_run w k p so pe :
  sockets w !! k = Some so → so_peer so = Some p →
  peers w !! p = Some pe → pe_isConnected pe = false →
  connect k w =
    (Normal tt,
     {| shards := shards w;
        sockets := alter (with_done []) k (sockets w);
        peers := alter (with_connected (pe_connected pe ++ [k])) p (peers w);
        timers := timers w;
        trace := trace w ++
                 done_calls k (Some (Ose_error "DISCONNECTED" VUndefined))
                   (so_done so) |}).
Proof.
  intros Hk Hp Hpe Hc. unfold connect. run_step. rewrite Hp.
  do 2 run_step. rewrite Hc.
  erewrite bind_normal by (by eapply emit_done_run).
  unfold once_connected. by repeat run_step.
Qed.

(** The error handler on a socket that its shard still needs: the shard is
    marked as not synced, ['done'] is emitted with the error and both
    references stay; a timer for [connect] is added when the code of the
    error is [DISCONNECTED], and only then. *)
Theorem error_needed (w : World) (k s : nat) (so : Socket) (sh : Shard)
    (e : OseErr) :
  sockets w !! k = Some so → so_shard so = Some s →
  shards w !! s = Some sh → sh_check2Link sh = true →
  exports_error k (Some e) w =
    (Normal tt,
     {| shards := alter (with_synced false) s (shards w);
        sockets := alter (with_done []) k (sockets w);
        peers := peers w;
        timers := if String.eqb (err_code e) "DISCONNECTED"
                  then timers w ++ [(1000, k)] else timers w;
        trace := (trace w ++ [EvSetSynced s false]) ++
                 done_calls k (Some e) (so_done so) |}).
Proof.
  intros Hk Hs Hsh Hc. unfold exports_error.
  erewrite bind_normal by (by eapply close_retry).
  by erewrite emit_done_run by done.
Qed.

Lemma error_needed_witness :
  exports_error 0 (Some (Ose_error "RX_ERROR" VUndefined)) (linked_world true)
  = (Normal tt,
     {| shards := [with_synced false (linked_shard true)];
        sockets := [with_done [] linked_socket];
        peers := [absent_peer];
        timers := [];
        trace := [EvSetSynced 0 false;
                  EvEmitDone 0 (Some (Ose_error "RX_ERROR" VUndefined));
                  EvListener 5 (Some (Ose_error "RX_ERROR" VUndefined))] |}).
Proof.
  apply (error_needed (linked_world true) 0 0 linked_socket
           (linked_shard true) (Ose_error "RX_ERROR" VUndefined));
    reflexivity.
Defined.

(** A socket whose [shard] is not set, as the teardown leaves it: the
    close and the error handler throw [UNEXPECTED], the open handler and
    the synced handler with a boolean throw a [TypeError]; none of them
    changes the heap or calls anything, ['done'] is not emitted. *)
Theorem dismantled_socket_throws (w : World) (k : nat) (so : Socket)
    (err : option OseErr) (data : JsVal) (b : bool) :
  sockets w !! k = Some so → so_shard so = None →
  (∃ e, err_code e = "UNEXPECTED" ∧
        close k err w = (Thrown (Raised e), w) ∧
        exports_close k w = (Thrown (Raised e), w) ∧
        exports_error k err w = (Thrown (Raised e), w)) ∧
  exports_open k data w = (Thrown TypeError, w) ∧
  exports_synced k (VBool b) w = (Thrown TypeError, w).
Proof.
  intros Hk Hs.
  assert (∀ e', close k e' w =
    (Thrown (Raised (Ose_error "UNEXPECTED"
       (VStr "'Shard to master' client socket was already closed!"))), w))
    as Hclose.
  { intros e'. unfold close. run_step. by rewrite Hs. }
  split; [eexists; split; [|split; [apply Hclose|split]]|split].
  - reflexivity.
  - unfold exports_close. by erewrite bind_thrown by apply Hclose.
  - unfold exports_error. by erewrite bind_thrown by apply Hclose.
  - unfold exports_open. run_step. by rewrite Hs.
  - unfold exports_synced. run_step. by rewrite Hs.
Qed.

Lemma dismantled_socket_throws_witness :
  exports_open 0 (VObj [("synced", VBool true)])
    (after (CallClose 0) (linked_world false)) =
  (Thrown TypeError, after (CallClose 0) (linked_world false)).
Proof.
  apply (dismantled_socket_throws (after (CallClose 0) (linked_world false))
           0 (with_done [] (with_shard None linked_socket)) None
           (VObj [("synced", VBool true)]) true); reflexivity.
Defined.

(** The open handler called with [undefined] or [null]: the entries with
    dependents are re-linked, then reading [data.synced] throws a
    [TypeError]; the shard's flag is not touched and ['done'] is not
    emitted. *)
Theorem open_without_data (w : World) (k s : nat) (so : Socket) (sh : Shard)
    (data : JsVal) :
  sockets w !! k = Some so → so_shard so = Some s →
  shards w !! s = Some sh →
  data = VUndefined ∨ data = VNull →
  exports_open k data w =
    (Thrown TypeError,
     {| shards := shards w; sockets := sockets w; peers := peers w;
        timers := timers w;
        trace := trace w ++
                 map (EvLinkMaster s) (dependents (sh_cache sh)) |}).
Proof.
  intros Hk Hs Hsh Hdata. unfold exports_open. run_step. rewrite Hs.
  do 2 run_step.
  erewrite bind_normal by apply for_each_linkMaster.
  by destruct Hdata as [-> | ->].
Qed.

Lemma open_without_data_witness :
  exports_open 0 VUndefined (linked_world true) =
    (Thrown TypeError,
     {| shards := [linked_shard true]; sockets := [linked_socket];
        peers := [absent_peer]; timers := [];
        trace := [EvLinkMaster 0 "a"; EvLinkMaster 0 "c"] |}).
Proof.
  apply (open_without_data (linked_world true) 0 0 linked_socket
           (linked_shard true) VUndefined);
    [reflexivity | reflexivity | reflexivity | left; reflexivity].
Defined.

Lemma alter_last {A} (f : A → A) (l : list A) (x : A) :
  alter f (length l) (l ++ [x]) = l ++ [f x].
Proof. by rewrite alter_app_r_alt, Nat.sub_diag. Qed.

(** The constructor for a shard without a master and a peer that is not
    connected returns the new socket, which the shard and the socket name
    as each other's; [connect] has called the callback, if one was given,
    with a [DISCONNECTED] error and has thereby removed it, and has left
    one listener for the socket on the peer's ['connected'] event. *)
Theorem C_disconnected (w : World) (shard peer : nat) (cb : option nat)
    (sh : Shard) (pe : Peer) :
  shards w !! shard = Some sh → sh_master sh = None →
  peers w !! peer = Some pe → pe_isConnected pe = false →
  let this := length (sockets w) in
  C shard peer cb w =
    (Normal this,
     {| shards := alter (with_master (Some this)) shard (shards w);
        sockets := sockets w ++
                   [{| so_shard := Some shard; so_peer := Some peer;
                       so_done := []; so_lid := None; so_handlers := [] |}];
        peers := alter (with_connected (pe_connected pe ++ [this])) peer
                   (peers w);
        timers := timers w;
        trace := trace w ++
                 done_calls this
                   (Some (Ose_error "DISCONNECTED" VUndefined))
                   (from_option (λ f, [f]) [] cb) |}).
Proof.
  intros Hsh Hm Hpe Hc this. erewrite C_fresh by done. fold this.
  erewrite bind_normal; last first.
  { eapply (connect_absent_run _ _ peer
              {| so_shard := Some shard; so_peer := Some peer;
                 so_done := from_option (λ f, [f]) [] cb;
                 so_lid := None; so_handlers := [] |} pe);
      [|reflexivity|exact Hpe|exact Hc].
    simpl. by rewrite list_lookup_middle. }
  simpl. unfold this. by rewrite alter_last.
Qed.

Lemma C_disconnected_witness :
  C 0 0 (Some 5%nat) fresh_world =
    (Normal 0%nat,
     {| shards := [linked_shard true];
        sockets := [with_lid None (with_done [] linked_socket)];
        peers := [with_connected [0%nat] absent_peer];
        timers := [];
        trace := [EvEmitDone 0 (Some (Ose_error "DISCONNECTED" VUndefined));
                  EvListener 5
                    (Some (Ose_error "DISCONNECTED" VUndefined))] |}).
Proof.
  apply (C_disconnected fresh_world 0 0 (Some 5%nat)
           (with_master None (linked_shard true)) absent_peer);
    reflexivity.
Defined.

Lemma addLink_run w p k pe ws :
  peers w !! p = Some pe → pe_ws pe = Some ws →
  addLink p k w =
    (Normal tt,
     {| shards := shards w;
        sockets := alter (with_lid (Some (ws_lastLid ws + 1))) k (sockets w);
        peers := alter (with_ws
                   (Some {| ws_links := <[toString16 (ws_lastLid ws + 1) := k]>
                                          (ws_links ws);
                            ws_lastLid := ws_lastLid ws + 1 |})) p (peers w);
        timers := timers w;
        trace := trace w ++ [EvAddLink p k (ws_lastLid ws + 1)] |}).
Proof.
  intros Hpe Hws. unfold addLink. run_step. rewrite Hws. by repeat run_step.
Qed.

(** [connect] for a socket with a shard and a connected peer: after
    [Ose.link.prepare] and [addLink] one frame of type ['shard'] is sent,
    with the link id that the socket has then, its handlers and the
    identification of the shard.  ['done'] is not emitted, the listeners of
    the socket stay and no listener is added to the peer. *)
Theorem connect_connected (w : World) (k p s : nat) (so : Socket)
    (pe : Peer) (ws : Ws) (sh : Shard) :
  sockets w !! k = Some so → so_peer so = Some p →
  peers w !! p = Some pe → pe_isConnected pe = true →
  pe_ws pe = Some ws →
  so_shard so = Some s → shards w !! s = Some sh →
  let lid := ws_lastLid ws + 1 in
  connect k w =
    (Normal tt,
     {| shards := shards w;
        sockets := alter (with_lid (Some lid)) k (sockets w);
        peers := alter (with_ws
                   (Some {| ws_links := <[toString16 lid := k]> (ws_links ws);
                            ws_lastLid := lid |})) p (peers w);
        timers := timers w;
        trace := trace w ++
                 [EvPrepare k; EvAddLink p k lid;
                  EvTx p {| fr_type := "shard"; fr_newLid := Some lid;
                            fr_handlers := so_handlers so;
                            fr_shard := sh_identify sh |}] |}).
Proof.
  intros Hk Hp Hpe Hc Hws Hs Hsh lid. unfold connect. run_step.
  rewrite Hp. do 2 run_step. rewrite Hc. run_step.
  erewrite bind_normal by (eapply addLink_run; [exact Hpe|exact Hws]).
  erewrite bind_normal; last first.
  { eapply get_socket_some. simpl. rewrite list_lookup_alter_eq, Hk.
    reflexivity. }
  simpl. rewrite Hs. do 2 run_step.
  unfold log, modify, set_trace. simpl. by rewrite <- !app_assoc.
Qed.

Lemma connect_connected_witness :
  connect 0 online_world =
    (Normal tt,
     {| shards := [linked_shard true];
        sockets := [with_lid (Some 26) linked_socket];
        peers := [with_ws (Some {| ws_links := {["1a" := 0%nat]};
                                   ws_lastLid := 26 |}) present_peer];
        timers := [];
        trace := [EvPrepare 0; EvAddLink 0 0 26;
                  EvTx 0 {| fr_type := "shard"; fr_newLid := Some 26;
                            fr_handlers := []; fr_shard := VStr "x" |}] |}).
Proof.
  apply (connect_connected online_world 0 0 0 linked_socket present_peer
           {| ws_links := ∅; ws_lastLid := 25 |} (linked_shard true));
    reflexivity.
Defined.

(** [connect] for a socket that has been dismantled, as when a retry timer
    expires after the teardown, and whose peer is connected: the socket
    gets a link id and is put into the link table of the peer, then
    reading [that.shard.identify] throws a [TypeError]; no frame is
    sent. *)
Theorem connect_dismantled (w : World) (k p : nat) (so : Socket) (pe : Peer)
    (ws : Ws) :
  sockets w !! k = Some so → so_peer so = Some p →
  peers w !! p = Some pe → pe_isConnected pe = true →
  pe_ws pe = Some ws → so_shard so = None →
  let lid := ws_lastLid ws + 1 in
  connect k w =
    (Thrown TypeError,
     {| shards := shards w;
        sockets := alter (with_lid (Some lid)) k (sockets w);
        peers := alter (with_ws
                   (Some {| ws_links := <[toString16 lid := k]> (ws_links ws);
                            ws_lastLid := lid |})) p (peers w);
        timers := timers w;
        trace := (trace w ++ [EvPrepare k]) ++ [EvAddLink p k lid] |}).
Proof.
  intros Hk Hp Hpe Hc Hws Hs lid. unfold connect. run_step.
  rewrite Hp. do 2 run_step. rewrite Hc. run_step.
  erewrite bind_normal by (eapply addLink_run; [exact Hpe|exact Hws]).
  erewrite bind_normal; last first.
  { eapply get_socket_some. simpl. rewrite list_lookup_alter_eq, Hk.
    reflexivity. }
  simpl. by rewrite Hs.
Qed.

Lemma connect_dismantled_witness :
  (connect 0 (set_sockets (alter (with_shard None) 0%nat) online_world)).1 =
    Thrown TypeError.
Proof.
  refine (f_equal fst
    (connect_dismantled
       (set_sockets (alter (with_shard None) 0%nat) online_world) 0 0
       (with_shard None linked_socket) present_peer
       {| ws_links := ∅; ws_lastLid := 25 |} _ _ _ _ _ _));
    reflexivity.
Defined.

(** The peer emits ['connected'] while [isConnected()] still answers false:
    the listener of the socket is removed and runs [connect], which emits
    ['done'] with [DISCONNECTED] again and registers the listener anew, so
    that one listener waits as before. *)
Theorem connected_but_absent (w : World) (k p : nat) (so : Socket)
    (pe : Peer) :
  peers w !! p = Some pe → pe_connected pe = [k] →
  pe_isConnected pe = false →
  sockets w !! k = Some so → so_peer so = Some p →
  emit_connected p w =
    (Normal tt,
     {| shards := shards w;
        sockets := alter (with_done []) k (sockets w);
        peers := alter (with_connected [k]) p (peers w);
        timers := timers w;
        trace := trace w ++
                 done_calls k (Some (Ose_error "DISCONNECTED" VUndefined))
                   (so_done so) |}).
Proof.
  intros Hpe Hl Hc Hk Hp. unfold emit_connected. run_step. rewrite Hl.
  simpl for_each. rewrite bind_ret_tt. run_step. rewrite Hl.
  simpl remove_first. rewrite Nat.eqb_refl. run_step.
  erewrite (connect_absent_run _ k p so (with_connected [] pe));
    [|exact Hk|exact Hp| |exact Hc].
  - simpl. rewrite list_alter_alter_eq.
    by rewrite (list_alter_ext (with_connected [k] ∘ with_connected [])
                  (with_connected [k]) (peers w) (peers w) p).
  - simpl. by rewrite list_lookup_alter_eq, Hpe.
Qed.

Lemma connected_but_absent_witness :
  emit_connected 0 (connect 0 (linked_world true)).2 =
    (Normal tt,
     {| shards := [linked_shard true];
        sockets := [with_done [] linked_socket];
        peers := [with_connected [0%nat] absent_peer];
        timers := [];
        trace := [EvEmitDone 0 (Some (Ose_error "DISCONNECTED" VUndefined));
                  EvListener 5 (Some (Ose_error "DISCONNECTED" VUndefined));
                  EvEmitDone 0
                    (Some (Ose_error "DISCONNECTED" VUndefined))] |}).
Proof.
  apply (connected_but_absent (connect 0 (linked_world true)).2 0 0
           (with_done [] linked_socket)
           (with_connected [0%nat] absent_peer)); reflexivity.
Defined.

(** A retry comes round: when the error handler has set the timer, its
    expiry takes the timer away and runs [connect] for the same socket. *)
Theorem retry_runs_connect (w : World) (k s : nat) (so : Socket) (sh : Shard)
    (e : OseErr) :
  sockets w !! k = Some so → so_shard so = Some s →
  shards w !! s = Some sh → sh_check2Link sh = true →
  err_code e = "DISCONNECTED" →
  let w1 := (exports_error k (Some e) w).2 in
  timers w1 = timers w ++ [(1000, k)] ∧
  fire_timer (length (timers w)) w1 =
    connect k (set_timers (λ _, timers w) w1).
Proof.
  intros Hk Hs Hsh Hc He w1.
  assert (timers w1 = timers w ++ [(1000, k)]) as Ht.
  { subst w1. unfold exports_error.
    erewrite bind_normal by (by eapply close_retry).
    erewrite emit_done_run by done. simpl. by rewrite He. }
  split; [done|]. unfold fire_timer.
  erewrite bind_normal; last first.
  { rewrite Ht, list_lookup_middle by done. reflexivity. }
  simpl. run_step. unfold set_timers. simpl.
  by rewrite Ht, (delete_middle _ []), app_nil_r.
Qed.

Lemma retry_runs_connect_witness :
  let w1 := (exports_error 0 (Some (Ose_error "DISCONNECTED" VUndefined))
               (linked_world true)).2 in
  timers w1 = [(1000, 0%nat)] ∧
  fire_timer 0 w1 = connect 0 (set_timers (λ _, []) w1).
Proof.
  apply (retry_runs_connect (linked_world true) 0 0 linked_socket
           (linked_shard true) (Ose_error "DISCONNECTED" VUndefined));
    reflexivity.
Defined.

(** Only the constructor and the teardown write [shard.master] and
    [socket.shard]: the open and the synced handler, the ['connected']
    event and the expiry of a timer, with any arguments and on any heap,
    returning or throwing, leave every such reference as it was. *)
Theorem links_untouched (w : World) (c : Call) :
  no_teardown c → same_links w (after c w).
Proof.
  destruct c; simpl; try done; intros _.
  - apply keeps_open.
  - apply keeps_synced.
  - apply keeps_emit_connected.
  - apply keeps_fire_timer.
Qed.

Lemma links_untouched_witness :
  same_links online_world
    (after (CallOpen 0 (VObj [("synced", VBool true)])) online_world).
Proof.
  apply (links_untouched online_world
           (CallOpen 0 (VObj [("synced", VBool true)]))).
  exact I.
Defined.

(** *** The ['done'] listeners *)

Ltac silent :=
  exists []; split; [by rewrite ?app_nil_r | intros ??; apply not_elem_of_nil].

Lemma quiet_ret k {A} (a : A) : quiet k (mret a : M A).
Proof. intros w. split; [done|]. silent. Qed.

Lemma quiet_throw k {A} e : quiet k (throw e : M A).
Proof. intros w. split; [done|]. silent. Qed.

Lemma quiet_bind k {A B} (m : M A) (f : A → M B) :
  quiet k m → (∀ a, quiet k (f a)) → quiet k (m ≫= f).
Proof.
  intros Hm Hf w. unfold mbind, Exec_bind. specialize (Hm w).
  destruct (m w) as [[a|e] w1]; simpl in *; [|done].
  destruct Hm as (Hd & evs & Ht & Hn).
  destruct (Hf a w1) as (Hd' & evs' & Ht' & Hn').
  split; [by rewrite Hd'|]. exists (evs ++ evs').
  split; [by rewrite Ht', Ht, app_assoc|].
  intros cb e [?|?]%elem_of_app; [by eapply Hn|by eapply Hn'].
Qed.

Lemma quiet_deref k {A} (r : option A) : quiet k (deref r : M A).
Proof. destruct r; [apply quiet_ret|apply quiet_throw]. Qed.

Lemma quiet_read k {A} (g : World → option A) :
  quiet k (λ w, deref (g w) w).
Proof. intros w. apply (quiet_deref k (g w)). Qed.

Lemma quiet_log k ev :
  (∀ cb e, ev ≠ EvListener cb e) → quiet k (log ev).
Proof.
  intros Hev w. split; [done|]. exists [ev]. split; [done|].
  intros cb e Hin%list_elem_of_singleton. by eapply Hev.
Qed.

Lemma quiet_modify k (f : World → World) :
  (∀ w, sockets (f w) = sockets w ∧ trace (f w) = trace w) →
  quiet k (modify f).
Proof.
  intros Hf w. destruct (Hf w) as [Hs Ht]. simpl. rewrite Hs, Ht.
  split; [done|]. silent.
Qed.

Lemma quiet_upd_socket k i f :
  (∀ so, so_done (f so) = so_done so) → quiet k (upd_socket i f).
Proof.
  intros Hf w. simpl. split; [by apply lookup_alter_keeps|].
  silent.
Qed.

Lemma quiet_for_each k {A} (f : A → M unit) (l : list A) :
  (∀ a, quiet k (f a)) → quiet k (for_each f l).
Proof.
  intros Hf. induction l as [|a l IH]; simpl.
  - apply quiet_ret.
  - apply quiet_bind; [apply Hf|by intros _].
Qed.

Ltac quiet :=
  repeat first
    [ apply quiet_bind; [|intros ?]
    | apply quiet_for_each; intros ?
    | apply quiet_ret
    | apply quiet_throw
    | apply quiet_deref
    | apply quiet_log; by intros ??
    | apply quiet_upd_socket; by intros ?
    | apply quiet_modify; by intros ?
    | apply (quiet_read _ (λ w, shards w !! _))
    | apply (quiet_read _ (λ w, sockets w !! _))
    | match goal with
      | |- quiet _ (match ?x with _ => _ end) => destruct x
      end ].

Lemma quiet_setSynced k s b : quiet k (setSynced s b).
Proof. unfold setSynced, upd_shard. quiet. Qed.

Lemma quiet_synced k this data : quiet k (exports_synced this data).
Proof.
  unfold exports_synced, link_error. quiet; apply quiet_setSynced.
Qed.

Lemma quiet_close k that err : quiet k (close that err).
Proof.
  unfold close, setTimeout, upd_shard. quiet; apply quiet_setSynced.
Qed.

Lemma once_quiet k {A} (m : M A) w : quiet k m → calls_once k w (m w).2.
Proof.
  intros Hm. destruct (Hm w) as (_ & evs & Ht & Hn).
  exists evs. split; [done|]. intros cb e Hin. by apply Hn in Hin.
Qed.

Lemma once_bind k {A B} (m : M A) (f : A → M B) w :
  quiet k m → (∀ a w1, calls_once k w1 (f a w1).2) →
  calls_once k w ((m ≫= f) w).2.
Proof.
  intros Hm Hf. unfold mbind, Exec_bind.
  pose proof (once_quiet k m w Hm) as Hq. specialize (Hm w).
  destruct (m w) as [[a|e] w1]; simpl in *; [|done].
  destruct Hm as (Hd & evs & Ht & Hn).
  destruct (Hf a w1) as (evs' & Ht' & Hl).
  exists (evs ++ evs'). split; [by rewrite Ht', Ht, app_assoc|].
  intros cb e [Hin|Hin]%elem_of_app; [by apply Hn in Hin|].
  destruct (Hl cb e Hin) as [(so & Hso & Hcb) Hnone]. split; [|done].
  rewrite Hso in Hd. destruct (sockets w !! k) as [so0|]; [|done].
  injection Hd as Hd. exists so0. by rewrite <- Hd.
Qed.

Lemma once_emit_done k err w : calls_once k w (emit_done k err w).2.
Proof.
  destruct (sockets w !! k) as [so|] eqn:Hk.
  - rewrite (emit_done_run w k so err Hk). simpl.
    exists (done_calls k err (so_done so)). split; [done|].
    intros cb e Hin.
    split; [|simpl; by rewrite list_lookup_alter_eq, Hk].
    exists so. split; [done|]. unfold done_calls in Hin.
    apply elem_of_cons in Hin as [?|Hin]; [done|].
    by apply list_elem_of_fmap in Hin as (cb' & [= -> _] & Hcb).
  - unfold emit_done. erewrite bind_thrown; last first.
    { unfold get_socket. by rewrite Hk. }
    exists []. split; [by rewrite app_nil_r|].
    intros cb e Hin. by apply elem_of_nil in Hin.
Qed.

Lemma once_handler k c w : handler_of k c → calls_once k w (after c w).
Proof.
  destruct c; simpl; try done; intros ->.
  - unfold exports_open.
    repeat lazymatch goal with
           | |- calls_once _ _ (emit_done _ _ _).2 => fail
           | |- _ => apply once_bind;
                       [first [apply quiet_synced | by quiet]|intros ??]
           end.
    apply once_emit_done.
  - unfold exports_close.
    apply once_bind; [apply quiet_close|intros _ ?]. apply once_emit_done.
  - unfold exports_error.
    apply once_bind; [apply quiet_close|intros _ ?]. apply once_emit_done.
  - apply once_quiet, quiet_synced.
Qed.

(** A ['done'] listener is called at most once.  On any heap and with
    any arguments, the listeners that a handler of a socket calls were
    registered on the socket when the handler was entered; and when it has
    called one, the handler that is entered next for the socket, whichever
    it is, calls none. *)
Theorem done_listener_once (w : World) (k : nat) (c c' : Call) :
  handler_of k c → handler_of k c' →
  ∃ evs evs',
    trace (after c w) = trace w ++ evs ∧
    trace (after c' (after c w)) = trace (after c w) ++ evs' ∧
    (∀ cb e, EvListener cb e ∈ evs →
       ∃ so, sockets w !! k = Some so ∧ cb ∈ so_done so) ∧
    (∀ cb e cb' e', EvListener cb e ∈ evs → EvListener cb' e' ∉ evs').
Proof.
  intros Hc Hc'.
  destruct (once_handler k c w Hc) as (evs & Ht & Hl).
  destruct (once_handler k c' (after c w) Hc') as (evs' & Ht' & Hl').
  exists evs, evs'. split; [done|]. split; [done|]. split.
  - intros cb e Hin. by destruct (Hl cb e Hin).
  - intros cb e cb' e' Hin Hin'.
    destruct (Hl cb e Hin) as [_ Hnone].
    destruct (Hl' cb' e' Hin') as [(so & Hso & Hcb) _].
    rewrite Hso in Hnone. injection Hnone as Hnone.
    rewrite Hnone in Hcb. by apply elem_of_nil in Hcb.
Qed.

Lemma done_listener_once_witness :
  trace (after (CallOpen 0 (VObj [("synced", VBool true)])) online_world) =
    [EvLinkMaster 0 "a"; EvLinkMaster 0 "c"; EvSetSynced 0 true;
     EvEmitDone 0 None; EvListener 5 None] ∧
  ∃ evs',
    trace (after (CallClose 0)
             (after (CallOpen 0 (VObj [("synced", VBool true)]))
                online_world)) =
      trace (after (CallOpen 0 (VObj [("synced", VBool true)])) online_world)
      ++ evs' ∧
    EvListener 5 None ∉ evs'.
Proof.
  split; [reflexivity|].
  destruct (done_listener_once online_world 0
              (CallOpen 0 (VObj [("synced", VBool true)])) (CallClose 0)
              eq_refl eq_refl) as (evs & evs' & Ht & Ht' & _ & Hnone).
  exists evs'. split; [exact Ht'|].
  apply (Hnone 5%nat None).
  assert (evs = [EvLinkMaster 0 "a"; EvLinkMaster 0 "c"; EvSetSynced 0 true;
                 EvEmitDone 0 None; EvListener 5 None]) as ->
    by exact (eq_sym Ht).
  do 4 apply list_elem_of_further. apply list_elem_of_here.
Defined.

Lemma emit_done_shards k err w : shards (emit_done k err w).2 = shards w.
Proof.
  destruct (sockets w !! k) as [so|] eqn:Hk.
  - by rewrite (emit_done_run w k so err Hk).
  - unfold emit_done. erewrite bind_thrown; [done|].
    unfold get_socket. by rewrite Hk.
Qed.

(** The teardown always marks the shard as not synced: entered through the
    close or the error handler for a socket that has its shard, with any
    error or none, it leaves the shard's flag false, whether it retries,
    dismantles or throws. *)
Theorem teardown_marks_unsynced (w : World) (k s : nat) (so : Socket)
    (sh : Shard) (err : option OseErr) :
  sockets w !! k = Some so → so_shard so = Some s →
  shards w !! s = Some sh →
  sh_synced <$> shards (close k err w).2 !! s = Some false ∧
  sh_synced <$> shards (exports_close k w).2 !! s = Some false ∧
  sh_synced <$> shards (exports_error k err w).2 !! s = Some false.
Proof.
  intros Hk Hs Hsh.
  assert (∀ e, sh_synced <$> shards (close k e w).2 !! s = Some false)
    as Hclose.
  { intros e. destruct (sh_check2Link sh) eqn:Hc.
    - destruct e as [e|].
      + erewrite close_retry by done. simpl.
        by rewrite list_lookup_alter_eq, Hsh.
      + erewrite close_no_error by done. simpl.
        by rewrite list_lookup_alter_eq, Hsh.
    - erewrite close_dismantle by done. simpl.
      by rewrite !list_lookup_alter_eq, Hsh. }
  assert (∀ e e', sh_synced <$>
            shards ((close k e ;; emit_done k e') w).2 !! s = Some false)
    as Hboth.
  { intros e e'. specialize (Hclose e). unfold mbind, Exec_bind.
    destruct (close k e w) as [[[]|x] w1]; simpl in *; [|done].
    by rewrite emit_done_shards. }
  split; [apply Hclose|]. split; apply Hboth.
Qed.

Lemma teardown_marks_unsynced_witness :
  sh_synced <$> shards (after (CallSynced 0 (VBool true)) online_world)
    !! 0%nat = Some true ∧
  sh_synced <$>
    shards (exports_close 0
              (after (CallSynced 0 (VBool true)) online_world)).2
    !! 0%nat = Some false.
Proof.
  split; [reflexivity|].
  refine (proj1 (proj2 (teardown_marks_unsynced
            (after (CallSynced 0 (VBool true)) online_world) 0 0
            linked_socket (with_synced true (linked_shard true)) None
            _ _ _))); reflexivity.
Defined.

End ShardSlaveMore.

(** * Further properties of the RX handlers *)

Module PeerRxMore.
Import PeerRx PeerRxFacts.

(** Two link ids with the same hexadecimal form are the same. *)
Lemma toString16_inj (n m : Z) : toString16 n = toString16 m → n = m.
Proof.
  assert (∀ z, NilZero.int_of_string (toString16 z) = Some (Z.to_hex_int z))
    as Hparse.
  { intros z. unfold toString16. apply NilZero.isi.
    - intros H. pose proof (f_equal Z.of_hex_int H) as H'.
      rewrite HexadecimalZ.of_to in H'. simpl in H'. subst z. discriminate.
    - intros H. pose proof (f_equal Z.of_hex_int H) as H'.
      rewrite HexadecimalZ.of_to in H'. simpl in H'. subst z. discriminate. }
  intros H. apply (f_equal NilZero.int_of_string) in H.
  rewrite !Hparse in H. injection H as H.
  by apply HexadecimalZ.to_int_inj.
Qed.

(** A socket is found under its own link id and under no other: putting
    [socket] into the link table under the hexadecimal form of [n] makes
    [getLink] return it for a request with that [lid], unless [n] is 0, and
    changes nothing for a request with another [lid] or none. *)
Theorem getLink_keyed_by_lid (ws : Ws) (req : Req) (n : Z) (socket : Socket)
    (t : list Event) :
  let ws' := {| links := <[toString16 n := socket]> (links ws) |} in
  (lid req = Some n → n ≠ 0 →
     getLink ws' req t = (Normal (Some socket), t)) ∧
  (lid req ≠ Some n → getLink ws' req t = getLink ws req t).
Proof.
  simpl. split.
  - intros Hl Hn. apply (getLink_found _ _ n).
    + by apply truthy_num_some.
    + simpl. apply lookup_insert_eq.
  - intros Hl. unfold getLink.
    destruct (truthy_num (lid req)) as [m|] eqn:Hm; [|done].
    apply truthy_num_some in Hm as [Hm _]. simpl.
    rewrite lookup_insert_ne; [done|].
    intros Heq. apply toString16_inj in Heq. congruence.
Qed.

Lemma getLink_keyed_by_lid_witness :
  getLink {| links := <[toString16 161 := mute_socket]> (links demo_ws) |}
      (frame "open" (Some 161) None) [] =
    (Normal (Some mute_socket), []) ∧
  getLink {| links := <[toString16 161 := mute_socket]> (links demo_ws) |}
      (frame "open" (Some 26) None) [] =
    getLink demo_ws (frame "open" (Some 26) None) [].
Proof.
  split.
  - apply (getLink_keyed_by_lid demo_ws (frame "open" (Some 161) None) 161
             mute_socket []); [reflexivity | discriminate].
  - apply (getLink_keyed_by_lid demo_ws (frame "open" (Some 26) None) 161
             mute_socket []). discriminate.
Defined.

(** A frame whose link id resolves to no socket: the open and the command
    handler do what [getLink] does, which is to report it, and nothing
    else. *)
Theorem unresolved_frame_dropped (forbiddenNames : list string) (ws : Ws)
    (req : Req) (t t' : list Event) :
  getLink ws req t = (Normal None, t') →
  exports_open ws req t = (Normal tt, t') ∧
  exports_command forbiddenNames ws req t = (Normal tt, t').
Proof.
  intros H. split.
  - unfold exports_open. by erewrite bind_normal by exact H.
  - unfold exports_command. by erewrite bind_normal by exact H.
Qed.

Lemma unresolved_frame_dropped_witness :
  exports_command ["constructor"] demo_ws
      (frame "command" (Some 9) (Some "update")) [] =
    (Normal tt,
     [EvTxError 9 "MISSING_LINK"
        (DReq (frame "command" (Some 9) (Some "update")))]).
Proof.
  apply (unresolved_frame_dropped ["constructor"] demo_ws
           (frame "command" (Some 9) (Some "update")) []).
  vm_compute. reflexivity.
Defined.

(** A command for a socket that passes frames through is forwarded as it
    is, whatever its name: the forbidden list is not consulted and no
    method of the socket is looked up. *)
Theorem command_passed_through (forbiddenNames : list string) (ws : Ws)
    (req : Req) (n : Z) (socket : Socket) (target : nat) (t : list Event) :
  truthy_num (lid req) = Some n →
  links ws !! toString16 n = Some socket →
  so_ws socket = Some target →
  exports_command forbiddenNames ws req t =
    (Normal tt, t ++ [EvForward target req]).
Proof.
  intros Hn Hl Hws. unfold exports_command.
  erewrite bind_normal by (by eapply getLink_found).
  cbv beta iota. by rewrite Hws.
Qed.

Lemma command_passed_through_witness :
  exports_command ["constructor"]
      {| links := {["7" := {| so_link := LinkSocket 1; so_ws := Some 3%nat;
                              so_methods := ["constructor"] |} ]} |}
      (frame "command" (Some 7) (Some "constructor")) [] =
    (Normal tt,
     [EvForward 3 (frame "command" (Some 7) (Some "constructor"))]).
Proof.
  apply (command_passed_through ["constructor"] _
           (frame "command" (Some 7) (Some "constructor")) 7
           {| so_link := LinkSocket 1; so_ws := Some 3%nat;
              so_methods := ["constructor"] |} 3 []).
  - reflexivity.
  - vm_compute. reflexivity.
  - reflexivity.
Defined.

(** Whatever the link table and the frame: when the command handler calls
    a method of a socket, the socket is registered under the [lid] of the
    frame and passes nothing through, the method is the one that the frame
    names, that name is not on the forbidden list and the socket has a
    function of that name. *)
Theorem command_invokes_only_allowed (forbiddenNames : list string)
    (ws : Ws) (req : Req) (t : list Event)
    (s : Socket) (m : string) (d : JsVal) (master : option Z) :
  EvInvoke s m d master ∉ t →
  EvInvoke s m d master ∈ (exports_command forbiddenNames ws req t).2 →
  (∃ n, lid req = Some n ∧ n ≠ 0 ∧ links ws !! toString16 n = Some s) ∧
  so_ws s = None ∧
  m = prop_key (name req) ∧
  (∀ x, name req = Some x → x ∉ forbiddenNames) ∧
  m ∈ so_methods s.
Proof.
  intros Hnot. unfold exports_command, getLink.
  assert (∀ e, (∀ s' m' d' ms', e ≠ EvInvoke s' m' d' ms') →
               EvInvoke s m d master ∈ t ++ [e] → False) as Hother.
  { intros e He [Hin|Hin%list_elem_of_singleton]%elem_of_app; [done|].
    by eapply He. }
  destruct (truthy_num (lid req)) as [n|] eqn:Hn.
  2:{ simpl. intros Hin. by eapply Hother in Hin. }
  apply truthy_num_some in Hn as [Hlid Hn0].
  destruct (links ws !! toString16 n) as [socket|] eqn:Hl.
  2:{ destruct (String.eqb (type req) "error"); simpl;
        intros Hin; by eapply Hother in Hin. }
  erewrite bind_normal by reflexivity. cbv beta iota.
  destruct (so_ws socket) as [target|] eqn:Hws.
  { simpl. intros Hin. by eapply Hother in Hin. }
  destruct (listed forbiddenNames (name req)) eqn:Hf.
  { simpl. intros Hin. by eapply Hother in Hin. }
  destruct (is_function socket (prop_key (name req))) eqn:Hm; simpl.
  2:{ intros Hin. by eapply Hother in Hin. }
  assert (∀ t0 mm, EvInvoke s m d master ∉ t0 →
            EvInvoke s m d master ∈
              t0 ++ [EvInvoke socket (prop_key (name req)) (data req) mm] →
            s = socket ∧ m = prop_key (name req)) as Hcall.
  { intros t0 mm Ht0 [Hin|Hin%list_elem_of_singleton]%elem_of_app; [done|].
    by injection Hin as -> -> _ _. }
  assert (s = socket ∧ m = prop_key (name req) →
    (∃ n, lid req = Some n ∧ n ≠ 0 ∧ links ws !! toString16 n = Some s) ∧
    so_ws s = None ∧ m = prop_key (name req) ∧
    (∀ x, name req = Some x → x ∉ forbiddenNames) ∧ m ∈ so_methods s)
    as Hdone.
  { intros [-> ->]. split; [by exists n|]. split; [done|]. split; [done|].
    split; [by apply listed_false|].
    unfold is_function in Hm. by apply bool_decide_eq_true in Hm. }
  destruct (truthy_num (newLid req)) as [l|]; simpl; intros Hin.
  - apply Hdone.
    apply (Hcall (t ++ [EvWsMaster l (handlers req)]) (Some l)); [|done].
    intros [?|Hx%list_elem_of_singleton]%elem_of_app; done.
  - apply Hdone. by apply (Hcall t None).
Qed.

Lemma command_invokes_only_allowed_witness :
  (exports_command ["constructor"] demo_ws
     (frame "command" (Some 7) (Some "update")) []).2 =
    [EvInvoke plain_socket "update" VUndefined None] ∧
  ("update" ∉ ["constructor"]) ∧
  ("update" ∈ so_methods plain_socket).
Proof.
  split; [vm_compute; reflexivity|].
  destruct (command_invokes_only_allowed ["constructor"] demo_ws
              (frame "command" (Some 7) (Some "update")) []
              plain_socket "update" VUndefined None)
    as (_ & _ & _ & Hallowed & Hmethod).
  - apply not_elem_of_nil.
  - vm_compute. apply list_elem_of_here.
  - split; [by apply Hallowed | exact Hmethod].
Defined.

End PeerRxMore.

(** * Properties of the close and the error handler *)

Module PeerRxHeapFacts.
Import PeerRx PeerRxFacts PeerRxHeap.

Lemma getLink_at req n a c :
  truthy_num (lid req) = Some n →
  registered c (toString16 n) = Some a →
  getLink req c = (Normal (Some a), c).
Proof.
  intros Hn Ha. unfold getLink. rewrite Hn.
  erewrite bind_normal by reflexivity. by rewrite Ha.
Qed.

Lemma registered_cell c key a :
  registered c key = Some a → ∃ ce, cells c !! a = Some ce.
Proof.
  unfold registered. destruct (links c !! key) as [a'|]; [|done]. simpl.
  destruct (cells c !! a') as [ce|] eqn:Hce; [|done]. simpl.
  destruct (truthy_cell ce); [|done]. intros [= <-]. eauto.
Qed.

Lemma get_cell_some c a ce :
  cells c !! a = Some ce → get_cell a c = (Normal ce, c).
Proof. intros H. unfold get_cell. by rewrite H. Qed.

Lemma delLid_run n c : delLid (Some n) c = (Normal tt, deregistered n c).
Proof. reflexivity. Qed.

(** The three [delete] statements on a pair of distinct values. *)
Lemma unlink_pair c a b ce ceb :
  cells c !! a = Some ce → link_of ce = LinkSocket b →
  a ≠ b → cells c !! b = Some ceb →
  unlink a c =
    (Normal tt,
     {| links := links c;
        cells := alter (change without_link) a
                   (alter (change without_ws) b
                      (alter (change without_link) b (cells c)));
        trace := trace c |}).
Proof.
  intros Ha Hl Hne Hb. unfold unlink.
  erewrite bind_normal by (by eapply get_cell_some). cbv beta iota.
  rewrite Hl. unfold delete_of_link.
  erewrite bind_normal; last first.
  { erewrite bind_normal by (by eapply get_cell_some). cbv beta iota.
    rewrite Hl. erewrite bind_normal by (by eapply get_cell_some).
    reflexivity. }
  erewrite bind_normal; last first.
  { erewrite bind_normal; last first.
    { eapply get_cell_some. simpl.
      rewrite list_lookup_alter_ne by done. exact Ha. }
    cbv beta iota. rewrite Hl.
    erewrite bind_normal; last first.
    { eapply get_cell_some. simpl.
      rewrite list_lookup_alter_eq, Hb. reflexivity. }
    reflexivity. }
  reflexivity.
Qed.

Lemma unpaired_after c a b ce ceb ls t :
  cells c !! a = Some ce → link_of ce = LinkSocket b →
  a ≠ b → cells c !! b = Some ceb →
  unpaired
    {| links := ls;
       cells := alter (change without_link) a
                  (alter (change without_ws) b
                     (alter (change without_link) b (cells c)));
       trace := t |} a b.
Proof.
  intros Ha Hl Hne Hb. unfold unpaired, link_at, ws_at. simpl.
  rewrite list_lookup_alter_eq, !list_lookup_alter_ne by done.
  rewrite !list_lookup_alter_eq, Ha, Hb. simpl.
  split; [by destruct ce|]. by destruct ceb.
Qed.

(** The two sockets of a link are taken apart.  When the value registered
    for the [lid] of a frame names another value as its [link], the error
    handler, and for an object the close handler, return with neither
    naming the other and with no [ws] on the other; after [delLid] the one
    further call is [Ose.link.error], with the code, message and data of
    the frame, or [Ose.link.close] with its data. *)
Theorem pair_taken_apart (c : Conn) (req : Req) (n : Z) (a b : nat)
    (ce ceb : Cell) (code message : option string) (todo : Req → M unit) :
  truthy_num (lid req) = Some n →
  registered c (toString16 n) = Some a →
  cells c !! a = Some ce → link_of ce = LinkSocket b →
  a ≠ b → cells c !! b = Some ceb →
  (let r := exports_error req code message c in
   r.1 = Normal tt ∧ unpaired r.2 a b ∧
   trace r.2 = trace c ++
     [EvDelLid (Some n);
      EvLinkFail a (or_else code "RX_ERROR") message (data req)]) ∧
  (∀ s, ce = CObject s →
   let r := exports_close todo req c in
   r.1 = Normal tt ∧ unpaired r.2 a b ∧
   trace r.2 = trace c ++ [EvDelLid (Some n); EvLinkClose a (data req)]).
Proof.
  intros Hn Hreg Ha Hl Hne Hb.
  apply truthy_num_some in Hn as Hlid. destruct Hlid as [Hlid _].
  split.
  - unfold exports_error.
    erewrite bind_normal by (by eapply getLink_at). cbv beta iota.
    rewrite Hlid. erewrite bind_normal by apply delLid_run.
    erewrite bind_normal by (by eapply (unlink_pair (deregistered n c))).
    simpl. split; [done|]. split; [by eapply unpaired_after|].
    by rewrite <- app_assoc.
  - intros s ->. unfold exports_close.
    erewrite bind_normal by (by eapply getLink_at). cbv beta iota.
    rewrite Hlid. erewrite bind_normal by apply delLid_run.
    erewrite bind_normal by (by eapply (get_cell_some (deregistered n c))).
    cbv beta iota. rewrite Hl.
    erewrite bind_normal by (by eapply (unlink_pair (deregistered n c))).
    simpl. split; [done|]. split; [by eapply unpaired_after|].
    by rewrite <- app_assoc.
Qed.

Lemma pair_taken_apart_witness :
  let r := exports_close (λ _, mret tt) (heap_frame "close" 7) demo_conn in
  r.1 = Normal tt ∧ unpaired r.2 0 1 ∧
  trace r.2 = [EvDelLid (Some 7); EvLinkClose 0 (VNum 1)].
Proof.
  refine (proj2 (pair_taken_apart demo_conn (heap_frame "close" 7) 7 0 1
                   _ _ None None (λ _, mret tt) _ _ _ _ _ _) _ _);
    try reflexivity.
  lia.
Defined.

Lemma getLink_frame req c :
  links (getLink req c).2 = links c ∧ cells (getLink req c).2 = cells c.
Proof.
  unfold getLink. destruct (truthy_num (lid req)) as [n|]; [|done].
  erewrite bind_normal by reflexivity. cbv beta iota.
  destruct (registered c (toString16 n)); [done|].
  by destruct (String.eqb (type req) "error").
Qed.

(** A close or an error frame whose link id resolves to nothing: the
    handlers do what [getLink] does, which is to report it; nothing is
    deregistered, no value of the heap is changed and none is called. *)
Theorem unresolved_link_untouched (c c' : Conn) (req : Req)
    (code message : option string) (todo : Req → M unit) :
  getLink req c = (Normal None, c') →
  exports_close todo req c = (Normal tt, c') ∧
  exports_error req code message c = (Normal tt, c') ∧
  links c' = links c ∧ cells c' = cells c.
Proof.
  intros H. split; [|split].
  - unfold exports_close. by erewrite bind_normal by exact H.
  - unfold exports_error. by erewrite bind_normal by exact H.
  - destruct (getLink_frame req c) as [Hl Hc]. by rewrite H in Hl, Hc.
Qed.

Lemma unresolved_link_untouched_witness :
  exports_error (heap_frame "error" 10) (Some "CLOSED") None demo_conn =
    (Normal tt,
     {| links := links demo_conn; cells := cells demo_conn;
        trace := [EvRx (EvLogError "MISSING_LINK"
                          (DReq (heap_frame "error" 10)))] |}).
Proof.
  apply (unresolved_link_untouched demo_conn _ (heap_frame "error" 10)
           (Some "CLOSED") None (λ _, mret tt)).
  vm_compute. reflexivity.
Defined.

(** A close frame for a relay: the link id is deregistered and then the
    one statement [Logger.todo(..)] is run, whatever it does; the close is
    not passed on, [Ose.link.close] is not called and no value of the heap
    is changed by the handler. *)
Theorem relay_close_dropped (c : Conn) (req : Req) (n : Z) (a : nat)
    (ce : Cell) (todo : Req → M unit) :
  truthy_num (lid req) = Some n →
  registered c (toString16 n) = Some a →
  cells c !! a = Some ce → link_of ce = LinkRelay →
  exports_close todo req c = todo req (deregistered n c).
Proof.
  intros Hn Hreg Ha Hl.
  apply truthy_num_some in Hn as Hlid. destruct Hlid as [Hlid _].
  unfold exports_close.
  erewrite bind_normal by (by eapply getLink_at). cbv beta iota.
  rewrite Hlid. erewrite bind_normal by apply delLid_run.
  erewrite bind_normal by (by eapply (get_cell_some (deregistered n c))).
  cbv beta iota. by rewrite Hl.
Qed.

Lemma relay_close_dropped_witness :
  exports_close (λ _, throw TypeError) (heap_frame "close" 9) demo_conn =
    (Thrown TypeError, deregistered 9 demo_conn).
Proof.
  refine (relay_close_dropped demo_conn (heap_frame "close" 9) 9 3 _
            (λ _, throw TypeError) _ _ _ _); reflexivity.
Defined.

(** A close frame for a value that is no relay and no object.  A function
    is called with the data of the frame, after [delLid], and its
    properties stay as they are, a [link] to another socket included.  For
    a primitive value the handler throws [invalidSocket], after
    [delLid]. *)
Theorem close_of_function (c : Conn) (req : Req) (n : Z) (a : nat)
    (ce : Cell) (todo : Req → M unit) :
  truthy_num (lid req) = Some n →
  registered c (toString16 n) = Some a →
  cells c !! a = Some ce → link_of ce ≠ LinkRelay →
  (∀ s, ce = CFunction s →
     exports_close todo req c =
       (Normal tt,
        {| links := delete (toString16 n) (links c); cells := cells c;
           trace := trace c ++
                    [EvDelLid (Some n); EvCallback a (data req)] |})) ∧
  (∀ v, ce = CPrimitive v →
     exports_close todo req c =
       (Thrown (Raised (Ose_error "invalidSocket" v)), deregistered n c)).
Proof.
  intros Hn Hreg Ha Hl.
  apply truthy_num_some in Hn as Hlid. destruct Hlid as [Hlid _].
  split.
  - intros s ->. unfold exports_close.
    erewrite bind_normal by (by eapply getLink_at). cbv beta iota.
    rewrite Hlid. erewrite bind_normal by apply delLid_run.
    erewrite bind_normal by (by eapply (get_cell_some (deregistered n c))).
    cbv beta iota. unfold link_of in *.
    destruct (so_link s); [|by destruct Hl|].
    + unfold log, modify, deregistered. simpl. by rewrite <- ?app_assoc.
    + unfold log, modify, deregistered. simpl. by rewrite <- ?app_assoc.
  - intros v ->. unfold exports_close.
    erewrite bind_normal by (by eapply getLink_at). cbv beta iota.
    rewrite Hlid. erewrite bind_normal by apply delLid_run.
    by erewrite bind_normal
      by (by eapply (get_cell_some (deregistered n c))).
Qed.

Lemma close_of_function_witness :
  exports_close (λ _, mret tt) (heap_frame "close" 8) demo_conn =
    (Normal tt,
     {| links := delete "8" (links demo_conn); cells := cells demo_conn;
        trace := [EvDelLid (Some 8); EvCallback 2 (VNum 1)] |}).
Proof.
  refine (proj1 (close_of_function demo_conn (heap_frame "close" 8) 8 2
                   _ (λ _, mret tt) _ _ _ _) _ _);
    try reflexivity.
  discriminate.
Defined.

Lemma unlink_trace a c : trace (unlink a c).2 = trace c.
Proof.
  unfold unlink, delete_of_link, get_cell, upd_cell, modify, throw, deref,
    mbind, Exec_bind, mret, Exec_ret.
  repeat (simpl;
          match goal with
          | |- context [match ?l !! ?i with _ => _ end] =>
              destruct (l !! i)
          | |- context [match link_of ?x with _ => _ end] =>
              destruct (link_of x)
          end); reflexivity.
Qed.



End PeerRxHeapFacts.
